(** * LIGR, SingleModeVisualizations: the two plotting drivers

    A shallow embedding of [plot_energy.py] and [plot_perturbations.py].
    Both scripts import the class [SingleModeSolution] from
    [LinearAnalysis/SingleMode.py]; they read its attributes and call its
    field evaluators, build a plot window and a mesh from them and pick the
    time at which the fields are drawn.

    Conventions of the embedding.
    - A finite Python or numpy float is read as a real number:
      [float := R].  Rounding, overflow and subnormal numbers are not
      modelled; comparisons of floats ([==], [<=]) are exact in Python and
      are the decidable comparisons of [R] here.
    - A quotient depends on the type of its operands.  Between Python
      numbers a zero divisor raises [ZeroDivisionError] ([py_div]); as soon
      as one operand is a numpy scalar the quotient is [inf] or [nan] with
      a warning and the script goes on ([np_div]).  The types of the
      attributes of an object are decided in the imported class, so an
      object carries, for each attribute the drivers divide, whether it is
      a numpy scalar ([Sim.numpy]).
    - A computation ends with a real value, with a raised exception, or
      with [NotFinite]: a value [inf] or [nan] came up, the script goes on
      with it, and the embedding does not follow it further.
    - A numpy complex number is a pair (real part, imaginary part) and
      [np.real] is the first projection.  A call of an evaluator on an
      array of positions is the map of the scalar evaluator. *)

From Stdlib Require Import Reals Lra Lia List Bool.
Import ListNotations.
Open Scope R_scope.

(** ** Python values and exceptions *)

Definition float : Type := R.

Definition complex : Type := (float * float)%type.

Definition np_real (z : complex) : float := fst z.

Definition np_abs (x : float) : float := Rabs x.

Inductive PyExn : Type :=
| ValueError_math_domain          (* math.sqrt(x) with x < 0 *)
| ZeroDivisionError               (* division of Python numbers by zero *)
| ConfigurationError              (* invalid constructor arguments *)
| ValueError_nan_to_integer       (* math.ceil(nan) *)
| OverflowError_inf_to_integer    (* math.ceil(inf) *)
| ValueError_negative_dimensions. (* np.indices with a negative size *)

(** Why a computation has no real value. *)
Inductive Stop : Type :=
| Raised (e : PyExn)
| NotFinite.

Definition py (A : Type) : Type := (Stop + A)%type.

Definition ret {A : Type} (a : A) : py A := inr a.

Definition raise {A : Type} (e : PyExn) : py A := inl (Raised e).

Definition not_finite {A : Type} : py A := inl NotFinite.

Definition bind {A B : Type} (c : py A) (k : A -> py B) : py B :=
  match c with
  | inl s => inl s
  | inr a => k a
  end.

Declare Scope py_scope.
Delimit Scope py_scope with py.
Notation "x <- c ;; k" := (bind c (fun x => k))
  (at level 61, c at next level, right associativity) : py_scope.

(** [a / b] between Python numbers. *)
Definition py_div (a b : float) : py float :=
  if Req_dec_T b 0 then raise ZeroDivisionError else ret (a / b).

(** [a / b] when an operand is a numpy scalar. *)
Definition np_div (a b : float) : py float :=
  if Req_dec_T b 0 then not_finite else ret (a / b).

(** [a / b], [numpy] telling whether an operand is a numpy scalar. *)
Definition div (numpy : bool) (a b : float) : py float :=
  if numpy then np_div a b else py_div a b.

(** [math.sqrt(x)]; its argument is converted to a Python float. *)
Definition math_sqrt (x : float) : py float :=
  if Rlt_dec x 0 then raise ValueError_math_domain else ret (sqrt x).

(** ** The object the drivers work on

    The class is imported, its body is not part of these two files: an
    instance is the record of the attributes the drivers read, of the
    evaluators they call, and of the numeric type of the attributes that
    enter a quotient. *)

Module Sim.

Inductive Attr : Type :=
| aLx | aLy | aM2 | aa2 | aR | aky | aepsilon_k | aphi | aomega.

Record t : Type := mk {
  Nx : float;
  Ny : float;
  epsilon_k : float;
  rho1 : float;
  Lx : float;
  Ly : float;
  M2 : float;
  a2 : float;
  R : float;
  ky : float;
  omega : float;
  phi : float;
  longwavelength : bool;
  (* delta_xs(t, y=None) *)
  delta_xs : float -> option float -> complex;
  tilde_p : float -> float -> float -> complex;
  tilde_rho : float -> float -> float -> complex;
  tilde_vx : float -> float -> float -> complex;
  tilde_vy : float -> float -> float -> complex;
  delta_KE : float -> float -> float -> float;
  delta_TE : float -> float -> float -> float;
  delta_rho_rho1 : float -> float -> float -> complex;
  (* true: the attribute is a numpy scalar; false: a Python number *)
  numpy : Attr -> bool
}.

End Sim.

(** Which mode number a branch of a driver normalises by. *)
Inductive Normalization : Type := ByNx | ByNy.

(** A plot window [(x0, x1), (y0, y1)]. *)
Definition Window : Type := ((float * float) * (float * float))%type.

(** The constructor call [SingleModeSolution(Nx, Ny, M1, epsilon_k=..., gamma=...)]. *)
Definition Constructor : Type :=
  float -> float -> float -> float -> float -> py Sim.t.

(** A [for] loop: the results of the iterations that completed with real
    values, and what ended the account, if anything: the exception that
    stopped the loop, or [NotFinite] in an iteration the embedding does
    not follow further. *)
Fixpoint for_each {A B : Type} (body : A -> py B) (l : list A)
  : list B * option Stop :=
  match l with
  | [] => ([], None)
  | a :: l' =>
      match body a with
      | inl s => ([], Some s)
      | inr b => let (bs, stop) := for_each body l' in (b :: bs, stop)
      end
  end.

(** [np.linspace(start, stop, num)]. *)
Definition linspace (start stop : float) (num : nat) : list float :=
  map (fun i => start + INR i * ((stop - start) / INR (num - 1))) (seq 0 num).

(** ** numpy meshes *)

Module Np.

(** [math.ceil(r)], through the integer just above [- r]. *)
Definition math_ceil (r : float) : Z := (1 - up (- r))%Z.

(** A two-dimensional array, as the list of its rows. *)
Definition Array2 : Type := list (list float).

(** The size [np.mgrid] computes for [slice(start, stop, step)] with a real
    step: [int(math.ceil((stop - start) / (step * 1.0)))].  With a zero
    step the quotient of Python numbers raises; the quotient of numpy
    scalars is [nan] or [inf], which [math.ceil] refuses. *)
Definition mgrid_raw_size (numpy : bool) (start stop step : float) : py Z :=
  if Req_dec_T (step * 1) 0 then
    if numpy then
      if Req_dec_T (stop - start) 0 then raise ValueError_nan_to_integer
      else raise OverflowError_inf_to_integer
    else raise ZeroDivisionError
  else ret (math_ceil ((stop - start) / (step * 1))).

(** [np.mgrid[slice(x0, xstop, dx), slice(y0, ystop, dy)]]: the two sizes
    are computed first, [np.indices] refuses a negative one, and the two
    arrays are [i * dx + x0] and [j * dy + y0] at position [(i, j)]. *)
Definition mgrid (numpy_x numpy_y : bool) (x0 xstop dx y0 ystop dy : float)
  : py (Array2 * Array2) :=
  bind (mgrid_raw_size numpy_x x0 xstop dx) (fun nx =>
  bind (mgrid_raw_size numpy_y y0 ystop dy) (fun ny =>
    if ((nx <? 0) || (ny <? 0))%Z then raise ValueError_negative_dimensions
    else
      ret (map (fun i => map (fun _ => INR i * dx + x0)
                             (seq 0 (Z.to_nat ny)))
               (seq 0 (Z.to_nat nx)),
           map (fun _ => map (fun j => INR j * dy + y0)
                             (seq 0 (Z.to_nat ny)))
               (seq 0 (Z.to_nat nx))))).

(** [a[:-1, :-1]]. *)
Definition trim (a : Array2) : Array2 := map (@removelast float) (removelast a).

(** [f(x, y)] on two arrays of the same shape, element by element. *)
Definition broadcast2 (f : float -> float -> float) (x y : Array2) : Array2 :=
  map (fun r => map (fun p => f (fst p) (snd p)) (combine (fst r) (snd r)))
      (combine x y).

(** [scale * a + offset]. *)
Definition affine (scale offset : float) (a : Array2) : Array2 :=
  map (map (fun v => scale * v + offset)) a.

(** The table with entry [g i j] in row [i < n] and column [j < m]. *)
Definition table (n m : nat) (g : nat -> nat -> float) : Array2 :=
  map (fun i => map (fun j => g i j) (seq 0 m)) (seq 0 n).

End Np.

(** ** plot_energy.py *)

Module PlotEnergy.

Local Open Scope py_scope.

(* Define fixed parameters *)
Definition Ny : float := 20.
Definition epsilon_k : float := 1 / 10.
Definition gamma : float := 5 / 3.

(* Define parameters to try. Ratio = kx/ky, M1 = Mach number *)
Definition ratios : list float :=
  [0; 1/10; 2/10; 3/10; 4/10; 5/10; 6/10; 7/10; 8/10; 9/10; 1; 11/10;
   12/10; 13/10].
Definition Nxs : list float := map (fun r => r * Ny) ratios.
Definition M1s : list float := [175/100; 225/100; 275/100].

(** Lines 73-79: the plot window, and the branch that produced it.  [Nx]
    is an element of a numpy array, [Ny] a Python integer. *)
Definition domain (sim : Sim.t) (Nx : float) : py (Normalization * Window) :=
  if Req_dec_T Ny 0 then
    x1 <- np_div (2 * Sim.Lx sim) Nx ;;
    y1 <- np_div (2 * Sim.Ly sim) Nx ;;
    ret (ByNx, ((0, x1), (0, y1)))
  else
    x1 <- div (Sim.numpy sim Sim.aLx) (2 * Sim.Lx sim) Ny ;;
    y1 <- div (Sim.numpy sim Sim.aLy) (2 * Sim.Ly sim) Ny ;;
    ret (ByNy, ((0, x1), (0, y1))).

(** Whether the edges [x1] and [y1] of the window are numpy scalars. *)
Definition window_numpy (sim : Sim.t) (by_ : Normalization) : bool * bool :=
  match by_ with
  | ByNx => (true, true)
  | ByNy => (Sim.numpy sim Sim.aLx, Sim.numpy sim Sim.aLy)
  end.

(** Line 80. *)
Definition dx (w : Window) : float := (snd (fst w) - fst (fst w)) / 50.
Definition dy (w : Window) : float := (snd (snd w) - fst (snd w)) / 50.

(** Line 81; [numpy_x] and [numpy_y] tell whether [x1] and [y1] are numpy
    scalars. *)
Definition mesh (numpy_x numpy_y : bool) (w : Window)
  : py (Np.Array2 * Np.Array2) :=
  Np.mgrid numpy_x numpy_y
           (fst (fst w)) (snd (fst w) + 2 * dx w) (dx w)
           (fst (snd w)) (snd (snd w) + 2 * dy w) (dy w).

(** Whether an operand of the quotient of line 86 is a numpy scalar. *)
Definition closed_form_numpy (sim : Sim.t) : bool :=
  Sim.numpy sim Sim.aepsilon_k || Sim.numpy sim Sim.aR
  || Sim.numpy sim Sim.aM2 || Sim.numpy sim Sim.aky.

(** Line 86: the closed form used when [sim.longwavelength] and
    [sim.Nx == 0].  The numerator is evaluated first, then the
    denominator with its [math.sqrt], then the quotient. *)
Definition closed_form_max_delta_xs (sim : Sim.t) : py float :=
  let num := Sim.epsilon_k sim * Sim.R sim * Sim.M2 sim ^ 2 in
  s <- math_sqrt (1 - Sim.M2 sim ^ 2) ;;
  div (closed_form_numpy sim) num (Sim.ky sim * s).

(** Lines 84-90. *)
Definition max_delta_xs (sim : Sim.t) : py float :=
  if Sim.longwavelength sim then
    if Req_dec_T (Sim.Nx sim) 0 then
      closed_form_max_delta_xs sim
    else
      t0 <- div (Sim.numpy sim Sim.aphi || Sim.numpy sim Sim.aomega)
                (Sim.phi sim) (Sim.omega sim) ;;
      ret (np_abs (np_real (Sim.delta_xs sim t0 None)))
  else
    ret (np_abs (np_real (Sim.delta_xs sim ((PI / 2) * Sim.omega sim) None))).

(** Whether [max_delta_xs] is a numpy scalar: [np.abs] always returns
    one. *)
Definition max_delta_xs_numpy (sim : Sim.t) : bool :=
  if Sim.longwavelength sim then
    if Req_dec_T (Sim.Nx sim) 0 then closed_form_numpy sim else true
  else true.

(** Line 91: the time at which the energy fields are drawn, for a right
    edge [x1] that is a numpy scalar or not. *)
Definition exit_time_at (x1_numpy : bool) (sim : Sim.t) (x1 : float)
  : py float :=
  m <- max_delta_xs sim ;;
  div (x1_numpy || max_delta_xs_numpy sim
       || Sim.numpy sim Sim.aM2 || Sim.numpy sim Sim.aa2)
      (x1 + m) (Sim.M2 sim * Sim.a2 sim).

(** Line 91 with the edge [x1 = 2*sim.Lx / Ny] of the branch that is
    taken, which has the type of [sim.Lx]. *)
Definition exit_time (sim : Sim.t) (x1 : float) : py float :=
  exit_time_at (Sim.numpy sim Sim.aLx) sim x1.

(** Lines 100-104. *)
Definition zs (sim : Sim.t) (t : float) (x y : Np.Array2) : list Np.Array2 :=
  map Np.trim
    [Np.broadcast2 (Sim.delta_KE sim t) x y;
     Np.broadcast2 (Sim.delta_TE sim t) x y;
     Np.broadcast2
       (fun a b => Sim.rho1 sim * np_real (Sim.delta_rho_rho1 sim t a b)) x y].

(** Lines 121-128: the factor applied to the mesh before [contourf]. *)
Definition contour_scale (Nx : float) : Normalization * float :=
  if Req_dec_T Ny 0 then (ByNx, Nx) else (ByNy, Ny).

(** Lines 121-128: the two coordinate arrays given to [contourf]. *)
Definition contour_xy (Nx : float) (w : Window) (x y : Np.Array2)
  : Np.Array2 * Np.Array2 :=
  let s := snd (contour_scale Nx) in
  (Np.affine s (dx w / 2) (Np.trim x), Np.affine s (dy w / 2) (Np.trim y)).

(** Lines 143-152: the axis limits; this test reads [sim.Ny]. *)
Definition axes (sim : Sim.t) (Nx : float) (w : Window)
  : Normalization * ((float * float) * (float * float)) :=
  let '((x0, x1), (y0, y1)) := w in
  if Req_dec_T (Sim.Ny sim) 0 then
    (ByNx, ((Nx * x0, Nx * x1), (Nx * y0, Nx * y1)))
  else
    (ByNy, ((Ny * x0, Ny * x1), (Ny * y0, Ny * y1))).

(** Lines 154-159: which title and file name the figure gets. *)
Definition title_by (sim : Sim.t) : Normalization :=
  if Req_dec_T (Sim.Ny sim) 0 then ByNx else ByNy.

(** What one iteration of the double loop hands to matplotlib. *)
Record Figure : Type := mkFigure {
  fig_sim : Sim.t;
  fig_Nx : float;
  fig_M1 : float;
  fig_domain_by : Normalization;       (* lines 73-79 *)
  fig_window : Window;
  fig_mesh : Np.Array2 * Np.Array2;    (* line 81 *)
  fig_t : float;                       (* line 91 *)
  fig_zs : list Np.Array2;             (* lines 100-104 *)
  fig_contour_by : Normalization;      (* lines 121-128 *)
  fig_contour_scale : float;
  fig_contour_xy : Np.Array2 * Np.Array2;
  fig_axes_by : Normalization;         (* lines 143-152 *)
  fig_xlim : float * float;
  fig_ylim : float * float;
  fig_title_by : Normalization         (* lines 154-159 *)
}.

(** The body of the loops, lines 68-168, in the order of the script: the
    object, the window, the mesh, the time, the sampled fields, and the
    choices made for the drawing.  The matplotlib calls themselves are
    left out. *)
Definition iteration (SingleModeSolution : Constructor)
    (p : float * float) : py Figure :=
  let (Nx, M1) := p in
  sim <- SingleModeSolution Nx Ny M1 epsilon_k gamma ;;
  d <- domain sim Nx ;;
  let w := snd d in
  let k := window_numpy sim (fst d) in
  xy <- mesh (fst k) (snd k) w ;;
  t <- exit_time_at (fst k) sim (snd (fst w)) ;;
  let c := contour_scale Nx in
  let a := axes sim Nx w in
  ret (mkFigure sim Nx M1 (fst d) w xy t (zs sim t (fst xy) (snd xy))
         (fst c) (snd c) (contour_xy Nx w (fst xy) (snd xy))
         (fst a) (fst (snd a)) (snd (snd a)) (title_by sim)).

(** Lines 64-65: [for Nx in Nxs: for M1 in M1s: ...]. *)
Definition run (SingleModeSolution : Constructor)
  : list Figure * option Stop :=
  for_each (iteration SingleModeSolution) (list_prod Nxs M1s).

End PlotEnergy.

(** ** plot_perturbations.py *)

Module PlotPerturbations.

Local Open Scope py_scope.

(* Define fixed parameters *)
Definition Ny : float := 20.
Definition epsilon_k : float := 1 / 10.
Definition gamma : float := 5 / 3.

(* Lines 56-58 are overwritten by lines 61-62. *)
Definition Nxs : list float := [2 / 10 * Ny].
Definition M1s : list float := [175 / 100].

(** Lines 74-80.  [Nx] is a Python float here, [Ny] a Python integer: the
    edges of the window have the type of [sim.Lx] and [sim.Ly]. *)
Definition domain (sim : Sim.t) (Nx : float) : py (Normalization * Window) :=
  if Req_dec_T Ny 0 then
    x1 <- div (Sim.numpy sim Sim.aLx) (2 * Sim.Lx sim) Nx ;;
    y1 <- div (Sim.numpy sim Sim.aLy) (2 * Sim.Ly sim) Nx ;;
    ret (ByNx, ((0, x1), (0, y1)))
  else
    x1 <- div (Sim.numpy sim Sim.aLx) (2 * Sim.Lx sim) Ny ;;
    y1 <- div (Sim.numpy sim Sim.aLy) (2 * Sim.Ly sim) Ny ;;
    ret (ByNy, ((0, x1), (0, y1))).

(** Line 82. *)
Definition dx (w : Window) : float := (snd (fst w) - fst (fst w)) / 100.
Definition dy (w : Window) : float := (snd (snd w) - fst (snd w)) / 100.

(** Line 83; [numpy_x] and [numpy_y] tell whether [x1] and [y1] are numpy
    scalars. *)
Definition mesh (numpy_x numpy_y : bool) (w : Window)
  : py (Np.Array2 * Np.Array2) :=
  Np.mgrid numpy_x numpy_y
           (fst (fst w)) (snd (fst w) + 2 * dx w) (dx w)
           (fst (snd w)) (snd (snd w) + 2 * dy w) (dy w).

(** Line 86: the desired middle of the shock front. *)
Definition xs (x1 : float) : float := (2 / 3) * x1.

(** Line 87, for the edge [x1] of the window, which has the type of
    [sim.Lx]. *)
Definition time (sim : Sim.t) (x1 : float) : py float :=
  div (Sim.numpy sim Sim.aLx || Sim.numpy sim Sim.aM2
       || Sim.numpy sim Sim.aa2)
      (xs x1) (Sim.M2 sim * Sim.a2 sim).

(** Line 136. *)
Definition y_shock (w : Window) : list float :=
  linspace (fst (snd w)) (snd (snd w)) 100.

(** Line 137: [xs*np.ones(y_shock.shape) + np.real(sim.delta_xs(t, y=y_shock))]. *)
Definition x_shock (sim : Sim.t) (w : Window) (t : float) : list float :=
  map (fun y => xs (snd (fst w)) * 1 + np_real (Sim.delta_xs sim t (Some y)))
      (y_shock w).

(** Lines 126-133. *)
Definition contour_scale (Nx : float) : Normalization * float :=
  if Req_dec_T Ny 0 then (ByNx, Nx) else (ByNy, Ny).

(** Lines 126-133: the two coordinate arrays given to [contourf]. *)
Definition contour_xy (Nx : float) (w : Window) (x y : Np.Array2)
  : Np.Array2 * Np.Array2 :=
  let s := snd (contour_scale Nx) in
  (Np.affine s (dx w / 2) (Np.trim x), Np.affine s (dy w / 2) (Np.trim y)).

(** Lines 139-142: the factor applied to the shock curve. *)
Definition shock_curve_scale (Nx : float) : Normalization * float :=
  if Req_dec_T Ny 0 then (ByNx, Nx) else (ByNy, Ny).

(** Lines 158-167; this test reads [sim.Ny]. *)
Definition axes (sim : Sim.t) (Nx : float) (w : Window)
  : Normalization * ((float * float) * (float * float)) :=
  let '((x0, x1), (y0, y1)) := w in
  if Req_dec_T (Sim.Ny sim) 0 then
    (ByNx, ((Nx * x0, Nx * x1), (Nx * y0, Nx * y1)))
  else
    (ByNy, ((Ny * x0, Ny * x1), (Ny * y0, Ny * y1))).

(** Lines 175-180. *)
Definition title_by (sim : Sim.t) : Normalization :=
  if Req_dec_T (Sim.Ny sim) 0 then ByNx else ByNy.

(** Line 110. *)
Definition n_rows : nat := 2.
Definition n_cols : nat := 2.

(** Line 117: [index = row*n_rows + col]. *)
Definition index (n_rows row col : nat) : nat := row * n_rows + col.

(** Lines 113-118: the indices into [zs] and [titles], in the order the
    two loops visit the panels. *)
Definition panel_indices (n_rows n_cols : nat) : list nat :=
  flat_map (fun row => map (fun col => index n_rows row col) (seq 0 n_cols))
           (seq 0 n_rows).

Record Figure : Type := mkFigure {
  fig_sim : Sim.t;
  fig_Nx : float;
  fig_M1 : float;
  fig_domain_by : Normalization;
  fig_window : Window;
  fig_mesh : Np.Array2 * Np.Array2;    (* line 83 *)
  fig_t : float;
  fig_contour_by : Normalization;
  fig_contour_scale : float;
  fig_contour_xy : Np.Array2 * Np.Array2;
  fig_x_shock : list float;
  fig_y_shock : list float;
  fig_shock_by : Normalization;
  fig_shock_scale : float;
  fig_axes_by : Normalization;
  fig_xlim : float * float;
  fig_ylim : float * float;
  fig_title_by : Normalization
}.

(** The body of the loops, lines 69-187, in the order of the script: the
    object, the window, the mesh, the time, and the choices made for the
    drawing, with the shock curve of lines 136-137.  The sampling of the
    four fields (lines 96-107) and the matplotlib calls are left out. *)
Definition iteration (SingleModeSolution : Constructor)
    (p : float * float) : py Figure :=
  let (Nx, M1) := p in
  sim <- SingleModeSolution Nx Ny M1 epsilon_k gamma ;;
  d <- domain sim Nx ;;
  let w := snd d in
  xy <- mesh (Sim.numpy sim Sim.aLx) (Sim.numpy sim Sim.aLy) w ;;
  t <- time sim (snd (fst w)) ;;
  let c := contour_scale Nx in
  let s := shock_curve_scale Nx in
  let a := axes sim Nx w in
  ret (mkFigure sim Nx M1 (fst d) w xy t (fst c) (snd c)
         (contour_xy Nx w (fst xy) (snd xy))
         (x_shock sim w t) (y_shock w) (fst s) (snd s)
         (fst a) (fst (snd a)) (snd (snd a)) (title_by sim)).

Definition run (SingleModeSolution : Constructor)
  : list Figure * option Stop :=
  for_each (iteration SingleModeSolution) (list_prod Nxs M1s).

End PlotPerturbations.

(** ** The constructor of the imported class *)

Module SingleMode.

Local Open Scope py_scope.

Definition both_modes_zero (Nx Ny : float) : bool :=
  if Req_dec_T Nx 0 then (if Req_dec_T Ny 0 then true else false) else false.

(** Modelled from the spec: the argument validation of the constructor of
    [SingleModeSolution].  [LinearAnalysis/SingleMode.py] is missing from
    the sources at hand; sections 4.1 and 7 of the specification say that
    construction reports an invalid configuration when [M1 <= 1], when
    both mode numbers are zero, or when [gamma <= 1]. *)
Definition check_configuration (Nx Ny M1 gamma : float) : py unit :=
  if Rle_dec M1 1 then raise ConfigurationError
  else if both_modes_zero Nx Ny then raise ConfigurationError
  else if Rle_dec gamma 1 then raise ConfigurationError
  else ret tt.

(** Modelled from the spec: the constructor of [SingleModeSolution],
    whose body is missing from the sources at hand.  It validates its
    arguments and only then derives the constants of the solution; the
    derivation (shock jump relations, periods, regime flag, frequencies)
    is not described by a formula in the specification and is the
    parameter [derive_constants]. *)
Definition SingleModeSolution
    (derive_constants : float -> float -> float -> float -> float -> Sim.t)
  : Constructor :=
  fun Nx Ny M1 epsilon_k gamma =>
    _ <- check_configuration Nx Ny M1 gamma ;;
    ret (derive_constants Nx Ny M1 epsilon_k gamma).

End SingleMode.

(** ** Properties of figures, and sample objects *)

(** The constructor keeps the [Ny] it is given as the attribute [sim.Ny]. *)
Definition stores_Ny (C : Constructor) : Prop :=
  forall Nx Ny M1 epsilon_k gamma sim,
    C Nx Ny M1 epsilon_k gamma = ret sim -> Sim.Ny sim = Ny.

(** The window [0, 2*Lx/Ny] x [0, 2*Ly/Ny]. *)
Definition window_by (sim : Sim.t) (Ny : float) : Window :=
  ((0, 2 * Sim.Lx sim / Ny), (0, 2 * Sim.Ly sim / Ny)).

(** Every choice of an energy figure took the [else] branch. *)
Definition energy_figure_by_Ny (f : PlotEnergy.Figure) : Prop :=
  let w := window_by (PlotEnergy.fig_sim f) PlotEnergy.Ny in
  PlotEnergy.fig_domain_by f = ByNy
  /\ PlotEnergy.fig_window f = w
  /\ PlotEnergy.fig_contour_by f = ByNy
  /\ PlotEnergy.fig_contour_scale f = PlotEnergy.Ny
  /\ PlotEnergy.fig_axes_by f = ByNy
  /\ PlotEnergy.fig_xlim f
     = (PlotEnergy.Ny * fst (fst w), PlotEnergy.Ny * snd (fst w))
  /\ PlotEnergy.fig_ylim f
     = (PlotEnergy.Ny * fst (snd w), PlotEnergy.Ny * snd (snd w))
  /\ PlotEnergy.fig_title_by f = ByNy.

(** Every choice of a perturbation figure took the [else] branch. *)
Definition perturbation_figure_by_Ny (f : PlotPerturbations.Figure) : Prop :=
  let w := window_by (PlotPerturbations.fig_sim f) PlotPerturbations.Ny in
  PlotPerturbations.fig_domain_by f = ByNy
  /\ PlotPerturbations.fig_window f = w
  /\ PlotPerturbations.fig_contour_by f = ByNy
  /\ PlotPerturbations.fig_contour_scale f = PlotPerturbations.Ny
  /\ PlotPerturbations.fig_shock_by f = ByNy
  /\ PlotPerturbations.fig_shock_scale f = PlotPerturbations.Ny
  /\ PlotPerturbations.fig_axes_by f = ByNy
  /\ PlotPerturbations.fig_xlim f
     = (PlotPerturbations.Ny * fst (fst w), PlotPerturbations.Ny * snd (fst w))
  /\ PlotPerturbations.fig_ylim f
     = (PlotPerturbations.Ny * fst (snd w), PlotPerturbations.Ny * snd (snd w))
  /\ PlotPerturbations.fig_title_by f = ByNy.

(** A sample object: it keeps its arguments, has unit periods and the
    post-shock Mach number [M2]; its attributes are all numpy scalars or
    all Python numbers, its shock displacement is [d] and its other
    evaluators are constant. *)
Definition sample_object (Nx Ny M2 : float) (lw : bool) (numpy : bool)
    (d : float -> option float -> complex) : Sim.t :=
  {| Sim.Nx := Nx; Sim.Ny := Ny; Sim.epsilon_k := 1 / 10; Sim.rho1 := 1;
     Sim.Lx := 1; Sim.Ly := 1; Sim.M2 := M2; Sim.a2 := 1; Sim.R := 2;
     Sim.ky := 2 * PI * Ny; Sim.omega := 1; Sim.phi := 0;
     Sim.longwavelength := lw;
     Sim.delta_xs := d;
     Sim.tilde_p := fun _ _ _ => (0, 0);
     Sim.tilde_rho := fun _ _ _ => (0, 0);
     Sim.tilde_vx := fun _ _ _ => (0, 0);
     Sim.tilde_vy := fun _ _ _ => (0, 0);
     Sim.delta_KE := fun _ _ _ => 0;
     Sim.delta_TE := fun _ _ _ => 0;
     Sim.delta_rho_rho1 := fun _ _ _ => (0, 0);
     Sim.numpy := fun _ => numpy |}.

(** The sample object with Python attributes and no shock displacement. *)
Definition sample_sim (Nx Ny M2 : float) (lw : bool) : Sim.t :=
  sample_object Nx Ny M2 lw false (fun _ _ => (0, 0)).

(** A displacement that varies along the front: a fortieth at its foot,
    less further up, never more than a fortieth in magnitude on the
    window. *)
Definition sample_displacement (t : float) (y : option float) : complex :=
  match y with
  | Some y => (1 / 40 - y / 4, 0)
  | None => (1 / 40, 0)
  end.

Definition sample_constructor : Constructor :=
  SingleMode.SingleModeSolution
    (fun Nx Ny _ _ _ => sample_sim Nx Ny (3 / 5) true).

(** * Theorems *)

(** ** Python primitives *)

Lemma py_div_nonzero (a b : float) : b <> 0 -> py_div a b = ret (a / b).
Proof.
  intros Hb. unfold py_div. destruct (Req_dec_T b 0) as [E | _].
  - contradiction.
  - reflexivity.
Qed.

Lemma py_div_zero (a b : float) : b = 0 -> py_div a b = raise ZeroDivisionError.
Proof.
  intros Hb. unfold py_div. destruct (Req_dec_T b 0) as [_ | N].
  - reflexivity.
  - contradiction.
Qed.

Lemma np_div_zero (a b : float) : b = 0 -> np_div a b = not_finite.
Proof.
  intros Hb. unfold np_div. destruct (Req_dec_T b 0) as [_ | N].
  - reflexivity.
  - contradiction.
Qed.

Lemma div_nonzero (k : bool) (a b : float) : b <> 0 -> div k a b = ret (a / b).
Proof.
  intros Hb. unfold div, np_div, py_div.
  destruct k; destruct (Req_dec_T b 0) as [E | _];
    (contradiction || reflexivity).
Qed.

Lemma div_zero (k : bool) (a b : float) :
  b = 0 ->
  div k a b = if k then not_finite else raise ZeroDivisionError.
Proof.
  intros Hb. unfold div. destruct k.
  - apply np_div_zero. exact Hb.
  - apply py_div_zero. exact Hb.
Qed.

Lemma div_succeeds (k : bool) (a b : float) :
  (exists q, div k a b = ret q) <-> b <> 0.
Proof.
  split.
  - intros [q Hq] E. rewrite (div_zero k a b E) in Hq.
    destruct k; discriminate.
  - intros N. eexists. apply div_nonzero. exact N.
Qed.

Lemma div_ret_nonzero (k : bool) (a b q : float) :
  div k a b = ret q -> b <> 0.
Proof. intros H. apply (div_succeeds k a b). exists q. exact H. Qed.

Lemma math_sqrt_defined (x : float) : 0 <= x -> math_sqrt x = ret (sqrt x).
Proof.
  intros Hx. unfold math_sqrt. destruct (Rlt_dec x 0) as [L | _].
  - lra.
  - reflexivity.
Qed.

Lemma math_sqrt_domain_error (x : float) :
  x < 0 -> math_sqrt x = raise ValueError_math_domain.
Proof.
  intros Hx. unfold math_sqrt. destruct (Rlt_dec x 0) as [_ | N].
  - reflexivity.
  - contradiction.
Qed.

Lemma bind_ret {A B : Type} (a : A) (k : A -> py B) : bind (ret a) k = k a.
Proof. reflexivity. Qed.

Lemma bind_raise {A B : Type} (e : PyExn) (k : A -> py B) :
  bind (raise e) k = raise e.
Proof. reflexivity. Qed.

Lemma ret_inj {A : Type} (a b : A) : ret a = ret b -> a = b.
Proof. intros H. injection H. trivial. Qed.

Lemma raise_inj {A : Type} (e e' : PyExn) : @raise A e = raise e' -> e = e'.
Proof. intros H. injection H. trivial. Qed.

Lemma speed_times_quotient (s a : float) : s <> 0 -> s * (a / s) = a.
Proof.
  intros Hs. unfold Rdiv. rewrite (Rmult_comm a), <- Rmult_assoc.
  rewrite Rinv_r by exact Hs. apply Rmult_1_l.
Qed.

Lemma square_pos (x : float) : x <> 0 -> 0 < x ^ 2.
Proof. intros H. destruct (Rdichotomy _ _ H); simpl; nra. Qed.

(** ** Loops *)

Lemma for_each_Forall {A B : Type} (body : A -> py B) (P : B -> Prop) :
  (forall a b, body a = ret b -> P b) ->
  forall l, Forall P (fst (for_each body l)).
Proof.
  intros Hbody l. induction l as [| a l IH]; simpl.
  - constructor.
  - destruct (body a) as [e | b] eqn:Ea.
    + constructor.
    + destruct (for_each body l) as [bs stop]. simpl in *.
      constructor.
      * apply (Hbody a). exact Ea.
      * exact IH.
Qed.

Lemma for_each_completes {A B : Type} (body : A -> py B) :
  forall l, (forall a, In a l -> exists b, body a = ret b) ->
            snd (for_each body l) = None
            /\ length (fst (for_each body l)) = length l.
Proof.
  induction l as [| a l IH]; intros H; simpl.
  - split; reflexivity.
  - destruct (H a (or_introl eq_refl)) as [b Hb]. rewrite Hb. unfold ret.
    destruct IH as [IH1 IH2].
    + intros a' Ha'. apply H. right. exact Ha'.
    + destruct (for_each body l) as [bs stop]. simpl in *.
      split; [exact IH1 | f_equal; exact IH2].
Qed.

(** ** linspace and lists *)

Lemma nth_map_default {A B : Type} (f : A -> B) (l : list A) (d : A) (d' : B)
    (i : nat) :
  (i < length l)%nat -> nth i (map f l) d' = f (nth i l d).
Proof.
  intros Hi. rewrite (nth_indep _ d' (f d)).
  - apply map_nth.
  - rewrite length_map. exact Hi.
Qed.

Lemma linspace_length (a b : float) (n : nat) : length (linspace a b n) = n.
Proof. unfold linspace. rewrite length_map, length_seq. reflexivity. Qed.

Lemma linspace_nth (a b : float) (n i : nat) :
  (i < n)%nat ->
  nth i (linspace a b n) 0 = a + INR i * ((b - a) / INR (n - 1)).
Proof.
  intros Hi. unfold linspace.
  rewrite (nth_map_default _ _ 0%nat) by (rewrite length_seq; exact Hi).
  rewrite seq_nth by exact Hi. reflexivity.
Qed.

Lemma INR_99 : INR 99 = 99.
Proof. rewrite INR_IZR_INZ. reflexivity. Qed.

Lemma linspace_between (a b : float) (n : nat) (y : float) :
  (2 <= n)%nat -> In y (linspace a b n) -> Rmin a b <= y <= Rmax a b.
Proof.
  intros Hn Hy. unfold linspace in Hy. apply in_map_iff in Hy.
  destruct Hy as [i [Hy Hi]]. apply in_seq in Hi. subst y.
  assert (Hpos : 0 < INR (n - 1)) by (apply lt_0_INR; lia).
  assert (Hi0 : 0 <= INR i) by apply pos_INR.
  assert (Hi1 : INR i <= INR (n - 1)) by (apply le_INR; lia).
  set (u := INR i / INR (n - 1)).
  assert (Hu : 0 <= u <= 1).
  { unfold u. split.
    - apply Rmult_le_pos; [exact Hi0 | left; apply Rinv_0_lt_compat; exact Hpos].
    - apply (Rmult_le_reg_r (INR (n - 1))); [exact Hpos |].
      unfold Rdiv. rewrite Rmult_assoc, Rinv_l by lra. lra. }
  replace (a + INR i * ((b - a) / INR (n - 1))) with (a + u * (b - a))
    by (unfold u; field; lra).
  unfold Rmin, Rmax. destruct (Rle_dec a b) as [Hab | Hab]; split; nra.
Qed.

(** ** Meshes *)

Lemma math_ceil_IZR (z : Z) : Np.math_ceil (IZR z) = z.
Proof.
  unfold Np.math_ceil.
  assert (H : (1 - z)%Z = up (- IZR z)).
  { apply tech_up; rewrite minus_IZR; lra. }
  rewrite <- H. ring.
Qed.

Lemma removelast_map {A B : Type} (f : A -> B) (l : list A) :
  removelast (map f l) = map f (removelast l).
Proof.
  induction l as [| a l IH]; [reflexivity |].
  destruct l as [| b l]; [reflexivity |].
  simpl in *. rewrite IH. reflexivity.
Qed.

Lemma removelast_seq (a n : nat) : removelast (seq a (S n)) = seq a n.
Proof. rewrite seq_S. apply removelast_last. Qed.

Lemma combine_map_same {A B C : Type} (f : A -> B) (g : A -> C) (l : list A) :
  combine (map f l) (map g l) = map (fun a => (f a, g a)) l.
Proof. induction l as [| a l IH]; simpl; [| rewrite IH]; reflexivity. Qed.

Lemma trim_table (n m : nat) (g : nat -> nat -> float) :
  Np.trim (Np.table (S n) (S m) g) = Np.table n m g.
Proof.
  unfold Np.trim, Np.table.
  rewrite removelast_map, removelast_seq, map_map.
  apply map_ext. intros i. rewrite removelast_map, removelast_seq. reflexivity.
Qed.

Lemma broadcast2_table (f : float -> float -> float) (n m : nat)
    (gx gy : nat -> nat -> float) :
  Np.broadcast2 f (Np.table n m gx) (Np.table n m gy)
  = Np.table n m (fun i j => f (gx i j) (gy i j)).
Proof.
  unfold Np.broadcast2, Np.table.
  rewrite combine_map_same, map_map. apply map_ext. intros i. simpl.
  rewrite combine_map_same, map_map. reflexivity.
Qed.

Lemma affine_table (s o : float) (n m : nat) (g : nat -> nat -> float) :
  Np.affine s o (Np.table n m g) = Np.table n m (fun i j => s * g i j + o).
Proof.
  unfold Np.affine, Np.table. rewrite map_map. apply map_ext. intros i.
  rewrite map_map. reflexivity.
Qed.

(** The size of an axis whose step is the [1/n]-th of its extent and whose
    stop lies two steps beyond the extent. *)
Lemma mgrid_raw_size_two_beyond (k : bool) (a b : float) (n : Z) :
  b <> a -> (0 < n)%Z ->
  Np.mgrid_raw_size k a (b + 2 * ((b - a) / IZR n)) ((b - a) / IZR n)
  = ret (n + 2)%Z.
Proof.
  intros Hab Hn. unfold Np.mgrid_raw_size.
  assert (Hn' : IZR n <> 0) by (apply not_0_IZR; lia).
  assert (Hstep : (b - a) / IZR n * 1 <> 0).
  { rewrite Rmult_1_r. unfold Rdiv.
    apply Rmult_integral_contrapositive_currified.
    - lra.
    - apply Rinv_neq_0_compat. exact Hn'. }
  destruct (Req_dec_T ((b - a) / IZR n * 1) 0) as [E | _]; [contradiction |].
  replace ((b + 2 * ((b - a) / IZR n) - a) / ((b - a) / IZR n * 1))
    with (IZR (n + 2)).
  - rewrite math_ceil_IZR. reflexivity.
  - rewrite plus_IZR. field. split; [exact Hn' | lra].
Qed.

(** The size of an axis of zero extent whose step is a fraction of the
    extent: the quotient is [0/0]. *)
Lemma mgrid_raw_size_zero_extent (k : bool) (a : float) (n : float) :
  Np.mgrid_raw_size k a (a + 2 * ((a - a) / n)) ((a - a) / n)
  = raise (if k then ValueError_nan_to_integer else ZeroDivisionError).
Proof.
  unfold Np.mgrid_raw_size.
  assert (H0 : (a - a) / n * 1 = 0) by (unfold Rdiv; ring).
  destruct (Req_dec_T ((a - a) / n * 1) 0) as [_ | N]; [| contradiction].
  destruct k; [| reflexivity].
  assert (H1 : a + 2 * ((a - a) / n) - a = 0) by (unfold Rdiv; ring).
  destruct (Req_dec_T (a + 2 * ((a - a) / n) - a) 0) as [_ | N];
    [reflexivity | contradiction].
Qed.

Lemma mgrid_two_beyond (kx ky : bool) (x0 x1 y0 y1 : float) (n : Z) :
  (0 < n)%Z -> x1 <> x0 -> y1 <> y0 ->
  let dx := (x1 - x0) / IZR n in
  let dy := (y1 - y0) / IZR n in
  Np.mgrid kx ky x0 (x1 + 2 * dx) dx y0 (y1 + 2 * dy) dy
  = ret (Np.table (Z.to_nat (n + 2)) (Z.to_nat (n + 2))
           (fun i _ => INR i * dx + x0),
         Np.table (Z.to_nat (n + 2)) (Z.to_nat (n + 2))
           (fun _ j => INR j * dy + y0)).
Proof.
  intros Hn Hx Hy dx dy. unfold Np.mgrid, dx, dy.
  rewrite !mgrid_raw_size_two_beyond by assumption. rewrite !bind_ret.
  assert (Hpos : (n + 2 <? 0)%Z = false) by (apply Z.ltb_ge; lia).
  rewrite Hpos. reflexivity.
Qed.

Lemma energy_mesh_table (kx ky : bool) (w : Window) :
  snd (fst w) <> fst (fst w) -> snd (snd w) <> fst (snd w) ->
  PlotEnergy.mesh kx ky w
  = ret (Np.table 52 52 (fun i _ => INR i * PlotEnergy.dx w + fst (fst w)),
         Np.table 52 52 (fun _ j => INR j * PlotEnergy.dy w + fst (snd w))).
Proof.
  intros Hx Hy. unfold PlotEnergy.mesh, PlotEnergy.dx, PlotEnergy.dy.
  apply (mgrid_two_beyond _ _ _ _ _ _ 50); [reflexivity | exact Hx | exact Hy].
Qed.

Lemma energy_node_50 (w : Window) :
  INR 50 * PlotEnergy.dx w + fst (fst w) = snd (fst w)
  /\ INR 50 * PlotEnergy.dy w + fst (snd w) = snd (snd w).
Proof.
  unfold PlotEnergy.dx, PlotEnergy.dy.
  replace (INR 50) with 50 by (rewrite INR_IZR_INZ; reflexivity).
  split; field.
Qed.

Lemma perturbations_mesh_table (kx ky : bool) (w : Window) :
  snd (fst w) <> fst (fst w) -> snd (snd w) <> fst (snd w) ->
  PlotPerturbations.mesh kx ky w
  = ret (Np.table 102 102
           (fun i _ => INR i * PlotPerturbations.dx w + fst (fst w)),
         Np.table 102 102
           (fun _ j => INR j * PlotPerturbations.dy w + fst (snd w))).
Proof.
  intros Hx Hy.
  unfold PlotPerturbations.mesh, PlotPerturbations.dx, PlotPerturbations.dy.
  apply (mgrid_two_beyond _ _ _ _ _ _ 100); [reflexivity | exact Hx | exact Hy].
Qed.

(** The window of an object has a width and a height exactly when its
    periods are not zero. *)
Lemma window_by_extent (sim : Sim.t) (Ny : float) :
  Ny <> 0 ->
  (snd (fst (window_by sim Ny)) <> fst (fst (window_by sim Ny))
   <-> Sim.Lx sim <> 0)
  /\ (snd (snd (window_by sim Ny)) <> fst (snd (window_by sim Ny))
      <-> Sim.Ly sim <> 0).
Proof.
  intros HNy. unfold window_by. cbn [fst snd].
  assert (H : forall l : float, 2 * l / Ny <> 0 <-> l <> 0).
  { intros l. split.
    - intros H E. apply H. rewrite E. unfold Rdiv. ring.
    - intros H E. apply H.
      assert (E' : 2 * l / Ny * Ny = 0) by (rewrite E; ring).
      unfold Rdiv in E'. rewrite Rmult_assoc, Rinv_l, Rmult_1_r in E' by exact HNy.
      lra. }
  split; apply H.
Qed.

(** ** The [Ny == 0] branches of the two drivers *)

Lemma energy_Ny_nonzero : PlotEnergy.Ny <> 0.
Proof. unfold PlotEnergy.Ny. lra. Qed.

Lemma perturbations_Ny_nonzero : PlotPerturbations.Ny <> 0.
Proof. unfold PlotPerturbations.Ny. lra. Qed.

Lemma energy_domain_by_Ny (sim : Sim.t) (Nx : float) :
  PlotEnergy.domain sim Nx = ret (ByNy, window_by sim PlotEnergy.Ny).
Proof.
  unfold PlotEnergy.domain.
  destruct (Req_dec_T PlotEnergy.Ny 0) as [E | _].
  - exfalso. exact (energy_Ny_nonzero E).
  - rewrite !(div_nonzero _ _ _ energy_Ny_nonzero). reflexivity.
Qed.

Lemma perturbations_domain_by_Ny (sim : Sim.t) (Nx : float) :
  PlotPerturbations.domain sim Nx = ret (ByNy, window_by sim PlotPerturbations.Ny).
Proof.
  unfold PlotPerturbations.domain.
  destruct (Req_dec_T PlotPerturbations.Ny 0) as [E | _].
  - exfalso. exact (perturbations_Ny_nonzero E).
  - rewrite !(div_nonzero _ _ _ perturbations_Ny_nonzero). reflexivity.
Qed.

Lemma energy_contour_by_Ny (Nx : float) :
  PlotEnergy.contour_scale Nx = (ByNy, PlotEnergy.Ny).
Proof.
  unfold PlotEnergy.contour_scale.
  destruct (Req_dec_T PlotEnergy.Ny 0) as [E | _]; [| reflexivity].
  exfalso. exact (energy_Ny_nonzero E).
Qed.

Lemma perturbations_contour_by_Ny (Nx : float) :
  PlotPerturbations.contour_scale Nx = (ByNy, PlotPerturbations.Ny).
Proof.
  unfold PlotPerturbations.contour_scale.
  destruct (Req_dec_T PlotPerturbations.Ny 0) as [E | _]; [| reflexivity].
  exfalso. exact (perturbations_Ny_nonzero E).
Qed.

Lemma perturbations_shock_curve_by_Ny (Nx : float) :
  PlotPerturbations.shock_curve_scale Nx = (ByNy, PlotPerturbations.Ny).
Proof.
  unfold PlotPerturbations.shock_curve_scale.
  destruct (Req_dec_T PlotPerturbations.Ny 0) as [E | _]; [| reflexivity].
  exfalso. exact (perturbations_Ny_nonzero E).
Qed.

(** What a completed pass of the loop body of plot_energy.py went
    through. *)
Lemma energy_iteration_inv (C : Constructor) (Nx M1 : float)
    (f : PlotEnergy.Figure) :
  PlotEnergy.iteration C (Nx, M1) = ret f ->
  exists sim xy t,
    C Nx PlotEnergy.Ny M1 PlotEnergy.epsilon_k PlotEnergy.gamma = ret sim
    /\ PlotEnergy.mesh (Sim.numpy sim Sim.aLx) (Sim.numpy sim Sim.aLy)
         (window_by sim PlotEnergy.Ny) = ret xy
    /\ PlotEnergy.exit_time sim (2 * Sim.Lx sim / PlotEnergy.Ny) = ret t
    /\ PlotEnergy.fig_sim f = sim
    /\ PlotEnergy.fig_mesh f = xy
    /\ PlotEnergy.fig_t f = t
    /\ PlotEnergy.fig_zs f = PlotEnergy.zs sim t (fst xy) (snd xy)
    /\ PlotEnergy.fig_contour_xy f
       = PlotEnergy.contour_xy Nx (window_by sim PlotEnergy.Ny) (fst xy) (snd xy)
    /\ PlotEnergy.fig_domain_by f = ByNy
    /\ PlotEnergy.fig_window f = window_by sim PlotEnergy.Ny
    /\ PlotEnergy.fig_contour_by f = ByNy
    /\ PlotEnergy.fig_contour_scale f = PlotEnergy.Ny
    /\ PlotEnergy.fig_axes_by f
       = fst (PlotEnergy.axes sim Nx (window_by sim PlotEnergy.Ny))
    /\ PlotEnergy.fig_xlim f
       = fst (snd (PlotEnergy.axes sim Nx (window_by sim PlotEnergy.Ny)))
    /\ PlotEnergy.fig_ylim f
       = snd (snd (PlotEnergy.axes sim Nx (window_by sim PlotEnergy.Ny)))
    /\ PlotEnergy.fig_title_by f = PlotEnergy.title_by sim.
Proof.
  unfold PlotEnergy.iteration.
  destruct (C Nx PlotEnergy.Ny M1 PlotEnergy.epsilon_k PlotEnergy.gamma)
    as [e | sim] eqn:EC; [discriminate |].
  rewrite bind_ret, energy_domain_by_Ny, bind_ret.
  cbn [fst snd PlotEnergy.window_numpy].
  destruct (PlotEnergy.mesh (Sim.numpy sim Sim.aLx) (Sim.numpy sim Sim.aLy)
              (window_by sim PlotEnergy.Ny)) as [e | xy] eqn:Em;
    [discriminate |].
  rewrite bind_ret.
  change (PlotEnergy.exit_time_at (Sim.numpy sim Sim.aLx) sim
            (snd (fst (window_by sim PlotEnergy.Ny))))
    with (PlotEnergy.exit_time sim (2 * Sim.Lx sim / PlotEnergy.Ny)).
  destruct (PlotEnergy.exit_time sim (2 * Sim.Lx sim / PlotEnergy.Ny))
    as [e | t] eqn:Et; [discriminate |].
  rewrite bind_ret. intros Hf. apply ret_inj in Hf. subst f.
  exists sim, xy, t. rewrite energy_contour_by_Ny. cbn.
  repeat (split; [reflexivity || assumption |]). reflexivity.
Qed.

(** A pass of the loop body of plot_energy.py whose steps all succeed. *)
Lemma energy_iteration_value (C : Constructor) (Nx M1 : float)
    (sim : Sim.t) (xy : Np.Array2 * Np.Array2) (t : float) :
  C Nx PlotEnergy.Ny M1 PlotEnergy.epsilon_k PlotEnergy.gamma = ret sim ->
  PlotEnergy.mesh (Sim.numpy sim Sim.aLx) (Sim.numpy sim Sim.aLy)
    (window_by sim PlotEnergy.Ny) = ret xy ->
  PlotEnergy.exit_time sim (2 * Sim.Lx sim / PlotEnergy.Ny) = ret t ->
  exists f, PlotEnergy.iteration C (Nx, M1) = ret f
            /\ PlotEnergy.fig_sim f = sim /\ PlotEnergy.fig_t f = t
            /\ PlotEnergy.fig_mesh f = xy.
Proof.
  intros EC Em Et. unfold PlotEnergy.iteration.
  rewrite EC, bind_ret, energy_domain_by_Ny, bind_ret.
  cbn [fst snd PlotEnergy.window_numpy]. rewrite Em, bind_ret.
  change (PlotEnergy.exit_time_at (Sim.numpy sim Sim.aLx) sim
            (snd (fst (window_by sim PlotEnergy.Ny))))
    with (PlotEnergy.exit_time sim (2 * Sim.Lx sim / PlotEnergy.Ny)).
  rewrite Et, bind_ret. eexists. split; [reflexivity |].
  cbn. repeat split; reflexivity.
Qed.

(** A pass of the loop body of plot_energy.py that stops at the time
    computation. *)
Lemma energy_iteration_stops_at_time (C : Constructor) (Nx M1 : float)
    (sim : Sim.t) (xy : Np.Array2 * Np.Array2) (s : Stop) :
  C Nx PlotEnergy.Ny M1 PlotEnergy.epsilon_k PlotEnergy.gamma = ret sim ->
  PlotEnergy.mesh (Sim.numpy sim Sim.aLx) (Sim.numpy sim Sim.aLy)
    (window_by sim PlotEnergy.Ny) = ret xy ->
  PlotEnergy.exit_time sim (2 * Sim.Lx sim / PlotEnergy.Ny) = inl s ->
  PlotEnergy.iteration C (Nx, M1) = inl s.
Proof.
  intros EC Em Et. unfold PlotEnergy.iteration.
  rewrite EC, bind_ret, energy_domain_by_Ny, bind_ret.
  cbn [fst snd PlotEnergy.window_numpy]. rewrite Em, bind_ret.
  change (PlotEnergy.exit_time_at (Sim.numpy sim Sim.aLx) sim
            (snd (fst (window_by sim PlotEnergy.Ny))))
    with (PlotEnergy.exit_time sim (2 * Sim.Lx sim / PlotEnergy.Ny)).
  rewrite Et. reflexivity.
Qed.

Lemma perturbations_iteration_inv (C : Constructor) (Nx M1 : float)
    (f : PlotPerturbations.Figure) :
  PlotPerturbations.iteration C (Nx, M1) = ret f ->
  exists sim xy t,
    C Nx PlotPerturbations.Ny M1 PlotPerturbations.epsilon_k
      PlotPerturbations.gamma = ret sim
    /\ PlotPerturbations.mesh (Sim.numpy sim Sim.aLx) (Sim.numpy sim Sim.aLy)
         (window_by sim PlotPerturbations.Ny) = ret xy
    /\ PlotPerturbations.time sim (2 * Sim.Lx sim / PlotPerturbations.Ny) = ret t
    /\ PlotPerturbations.fig_sim f = sim
    /\ PlotPerturbations.fig_mesh f = xy
    /\ PlotPerturbations.fig_t f = t
    /\ PlotPerturbations.fig_y_shock f
       = PlotPerturbations.y_shock (window_by sim PlotPerturbations.Ny)
    /\ PlotPerturbations.fig_x_shock f
       = PlotPerturbations.x_shock sim (window_by sim PlotPerturbations.Ny) t
    /\ PlotPerturbations.fig_domain_by f = ByNy
    /\ PlotPerturbations.fig_window f = window_by sim PlotPerturbations.Ny
    /\ PlotPerturbations.fig_contour_by f = ByNy
    /\ PlotPerturbations.fig_contour_scale f = PlotPerturbations.Ny
    /\ PlotPerturbations.fig_shock_by f = ByNy
    /\ PlotPerturbations.fig_shock_scale f = PlotPerturbations.Ny
    /\ PlotPerturbations.fig_axes_by f
       = fst (PlotPerturbations.axes sim Nx (window_by sim PlotPerturbations.Ny))
    /\ PlotPerturbations.fig_xlim f
       = fst (snd (PlotPerturbations.axes sim Nx
                     (window_by sim PlotPerturbations.Ny)))
    /\ PlotPerturbations.fig_ylim f
       = snd (snd (PlotPerturbations.axes sim Nx
                     (window_by sim PlotPerturbations.Ny)))
    /\ PlotPerturbations.fig_title_by f = PlotPerturbations.title_by sim.
Proof.
  unfold PlotPerturbations.iteration.
  destruct (C Nx PlotPerturbations.Ny M1 PlotPerturbations.epsilon_k
              PlotPerturbations.gamma) as [e | sim] eqn:EC;
    [discriminate |].
  rewrite bind_ret, perturbations_domain_by_Ny, bind_ret.
  cbn [fst snd].
  destruct (PlotPerturbations.mesh (Sim.numpy sim Sim.aLx)
              (Sim.numpy sim Sim.aLy) (window_by sim PlotPerturbations.Ny))
    as [e | xy] eqn:Em; [discriminate |].
  rewrite bind_ret.
  change (snd (fst (window_by sim PlotPerturbations.Ny)))
    with (2 * Sim.Lx sim / PlotPerturbations.Ny).
  destruct (PlotPerturbations.time sim (2 * Sim.Lx sim / PlotPerturbations.Ny))
    as [e | t] eqn:Et; [discriminate |].
  rewrite bind_ret. intros Hf. apply ret_inj in Hf. subst f.
  exists sim, xy, t.
  rewrite perturbations_contour_by_Ny, perturbations_shock_curve_by_Ny. cbn.
  repeat (split; [reflexivity || assumption |]). reflexivity.
Qed.

Lemma perturbations_iteration_value (C : Constructor) (Nx M1 : float)
    (sim : Sim.t) (xy : Np.Array2 * Np.Array2) (t : float) :
  C Nx PlotPerturbations.Ny M1 PlotPerturbations.epsilon_k
    PlotPerturbations.gamma = ret sim ->
  PlotPerturbations.mesh (Sim.numpy sim Sim.aLx) (Sim.numpy sim Sim.aLy)
    (window_by sim PlotPerturbations.Ny) = ret xy ->
  PlotPerturbations.time sim (2 * Sim.Lx sim / PlotPerturbations.Ny) = ret t ->
  exists f, PlotPerturbations.iteration C (Nx, M1) = ret f
            /\ PlotPerturbations.fig_sim f = sim
            /\ PlotPerturbations.fig_t f = t
            /\ PlotPerturbations.fig_mesh f = xy
            /\ PlotPerturbations.fig_y_shock f
               = PlotPerturbations.y_shock (window_by sim PlotPerturbations.Ny)
            /\ PlotPerturbations.fig_x_shock f
               = PlotPerturbations.x_shock sim
                   (window_by sim PlotPerturbations.Ny) t.
Proof.
  intros EC Em Et. unfold PlotPerturbations.iteration.
  rewrite EC, bind_ret, perturbations_domain_by_Ny, bind_ret.
  cbn [fst snd]. rewrite Em, bind_ret.
  change (snd (fst (window_by sim PlotPerturbations.Ny)))
    with (2 * Sim.Lx sim / PlotPerturbations.Ny).
  rewrite Et, bind_ret. eexists. split; [reflexivity |].
  cbn. repeat split; reflexivity.
Qed.

Lemma axes_by_Ny_energy (sim : Sim.t) (Nx : float) :
  Sim.Ny sim = PlotEnergy.Ny ->
  PlotEnergy.axes sim Nx (window_by sim PlotEnergy.Ny)
  = (ByNy,
     ((PlotEnergy.Ny * 0, PlotEnergy.Ny * (2 * Sim.Lx sim / PlotEnergy.Ny)),
      (PlotEnergy.Ny * 0, PlotEnergy.Ny * (2 * Sim.Ly sim / PlotEnergy.Ny))))
  /\ PlotEnergy.title_by sim = ByNy.
Proof.
  intros HNy. unfold PlotEnergy.axes, PlotEnergy.title_by, window_by.
  destruct (Req_dec_T (Sim.Ny sim) 0) as [E | _].
  - exfalso. apply energy_Ny_nonzero. rewrite <- HNy. exact E.
  - split; reflexivity.
Qed.

Lemma axes_by_Ny_perturbations (sim : Sim.t) (Nx : float) :
  Sim.Ny sim = PlotPerturbations.Ny ->
  PlotPerturbations.axes sim Nx (window_by sim PlotPerturbations.Ny)
  = (ByNy,
     ((PlotPerturbations.Ny * 0,
       PlotPerturbations.Ny * (2 * Sim.Lx sim / PlotPerturbations.Ny)),
      (PlotPerturbations.Ny * 0,
       PlotPerturbations.Ny * (2 * Sim.Ly sim / PlotPerturbations.Ny))))
  /\ PlotPerturbations.title_by sim = ByNy.
Proof.
  intros HNy.
  unfold PlotPerturbations.axes, PlotPerturbations.title_by, window_by.
  destruct (Req_dec_T (Sim.Ny sim) 0) as [E | _].
  - exfalso. apply perturbations_Ny_nonzero. rewrite <- HNy. exact E.
  - split; reflexivity.
Qed.

Lemma energy_iteration_by_Ny (C : Constructor) (p : float * float)
    (f : PlotEnergy.Figure) :
  stores_Ny C -> PlotEnergy.iteration C p = ret f -> energy_figure_by_Ny f.
Proof.
  intros HC Hf. destruct p as [Nx M1].
  destruct (energy_iteration_inv C Nx M1 f Hf)
    as [sim [xy [t [EC [_ [_ [Hs [_ [_ [_ [_ [Hd [Hw [Hcb [Hcs
         [Hab [Hxl [Hyl Htb]]]]]]]]]]]]]]]]]].
  assert (HNy : Sim.Ny sim = PlotEnergy.Ny) by (apply (HC _ _ _ _ _ _ EC)).
  destruct (axes_by_Ny_energy sim Nx HNy) as [Hax Htitle].
  unfold energy_figure_by_Ny.
  rewrite Hd, Hw, Hcb, Hcs, Hab, Hxl, Hyl, Htb, Hs, Hax, Htitle.
  cbn. repeat split; reflexivity.
Qed.

Lemma perturbations_iteration_by_Ny (C : Constructor) (p : float * float)
    (f : PlotPerturbations.Figure) :
  stores_Ny C -> PlotPerturbations.iteration C p = ret f ->
  perturbation_figure_by_Ny f.
Proof.
  intros HC Hf. destruct p as [Nx M1].
  destruct (perturbations_iteration_inv C Nx M1 f Hf)
    as [sim [xy [t [EC [_ [_ [Hs [_ [_ [_ [_ [Hd [Hw [Hcb [Hcs [Hsb [Hss
         [Hab [Hxl [Hyl Htb]]]]]]]]]]]]]]]]]]]].
  assert (HNy : Sim.Ny sim = PlotPerturbations.Ny)
    by (apply (HC _ _ _ _ _ _ EC)).
  destruct (axes_by_Ny_perturbations sim Nx HNy) as [Hax Htitle].
  unfold perturbation_figure_by_Ny.
  rewrite Hd, Hw, Hcb, Hcs, Hsb, Hss, Hab, Hxl, Hyl, Htb, Hs, Hax, Htitle.
  cbn. repeat split; reflexivity.
Qed.

(** C10.  [Ny] is the constant 20 in both drivers, so the test [Ny == 0]
    fails wherever it is made: the window is [0, 2*Lx/Ny] x [0, 2*Ly/Ny]
    for every object and every [Nx], the contour mesh and the shock curve
    are multiplied by [Ny], and, for a constructor that keeps its [Ny] as
    [sim.Ny], the axis limits and the title of every figure an execution
    produces are the [Ny] ones too. *)
Theorem Ny_zero_branches_unreachable (C : Constructor) (HC : stores_Ny C) :
  (forall sim Nx,
      PlotEnergy.domain sim Nx = ret (ByNy, window_by sim PlotEnergy.Ny))
  /\ (forall sim Nx,
      PlotPerturbations.domain sim Nx
      = ret (ByNy, window_by sim PlotPerturbations.Ny))
  /\ (forall Nx, PlotEnergy.contour_scale Nx = (ByNy, PlotEnergy.Ny))
  /\ (forall Nx,
      PlotPerturbations.contour_scale Nx = (ByNy, PlotPerturbations.Ny)
      /\ PlotPerturbations.shock_curve_scale Nx = (ByNy, PlotPerturbations.Ny))
  /\ PlotEnergy.Ny = 20 /\ PlotPerturbations.Ny = 20
  /\ Forall energy_figure_by_Ny (fst (PlotEnergy.run C))
  /\ Forall perturbation_figure_by_Ny (fst (PlotPerturbations.run C)).
Proof.
  repeat split.
  - apply energy_domain_by_Ny.
  - apply perturbations_domain_by_Ny.
  - apply energy_contour_by_Ny.
  - apply perturbations_contour_by_Ny.
  - apply perturbations_shock_curve_by_Ny.
  - unfold PlotEnergy.run. apply for_each_Forall.
    intros p f. apply energy_iteration_by_Ny. exact HC.
  - unfold PlotPerturbations.run. apply for_each_Forall.
    intros p f. apply perturbations_iteration_by_Ny. exact HC.
Qed.

Lemma sample_constructor_stores_Ny : stores_Ny sample_constructor.
Proof.
  intros Nx Ny M1 e g sim.
  unfold sample_constructor, SingleMode.SingleModeSolution.
  destruct (SingleMode.check_configuration Nx Ny M1 g) as [x | []]; simpl.
  - discriminate.
  - intros H. apply ret_inj in H. subst sim. reflexivity.
Qed.

Lemma Ny_zero_branches_unreachable_witness :
  stores_Ny sample_constructor
  /\ Forall energy_figure_by_Ny (fst (PlotEnergy.run sample_constructor))
  /\ Forall perturbation_figure_by_Ny
       (fst (PlotPerturbations.run sample_constructor)).
Proof.
  split.
  - exact sample_constructor_stores_Ny.
  - pose proof (Ny_zero_branches_unreachable sample_constructor
                  sample_constructor_stores_Ny) as H.
    split; apply H.
Defined.

Lemma check_configuration_valid (Nx Ny M1 gamma : float) :
  1 < M1 -> Ny <> 0 -> 1 < gamma ->
  SingleMode.check_configuration Nx Ny M1 gamma = ret tt.
Proof.
  intros HM HNy Hg. unfold SingleMode.check_configuration.
  destruct (Rle_dec M1 1) as [L | _]; [lra |].
  unfold SingleMode.both_modes_zero.
  destruct (Req_dec_T Nx 0) as [_ | _];
    [destruct (Req_dec_T Ny 0) as [E | _]; [contradiction |] |];
    (destruct (Rle_dec gamma 1) as [L | _]; [lra | reflexivity]).
Qed.

(** ** The time window of plot_energy.py *)

Lemma one_minus_square_pos (m : float) : m ^ 2 < 1 -> 0 < sqrt (1 - m ^ 2).
Proof. intros H. apply sqrt_lt_R0. lra. Qed.

Lemma closed_form_value (sim : Sim.t) :
  Sim.M2 sim ^ 2 < 1 -> Sim.ky sim <> 0 ->
  PlotEnergy.closed_form_max_delta_xs sim
  = ret (Sim.epsilon_k sim * Sim.R sim * Sim.M2 sim ^ 2
         / (Sim.ky sim * sqrt (1 - Sim.M2 sim ^ 2))).
Proof.
  intros HM Hky. unfold PlotEnergy.closed_form_max_delta_xs.
  rewrite math_sqrt_defined by lra. rewrite bind_ret.
  apply div_nonzero.
  pose proof (one_minus_square_pos _ HM) as Hs.
  apply Rmult_integral_contrapositive_currified; [exact Hky | lra].
Qed.

(** The closed form is proportional to [epsilon_k] and inversely
    proportional to [ky] itself: scaling the amplitude by [c] and the
    transverse wavenumber by [k] scales it by [c / k]. *)
Lemma closed_form_scales (sim sim' : Sim.t) (c k m : float) :
  Sim.M2 sim ^ 2 < 1 -> Sim.ky sim <> 0 -> k <> 0 ->
  Sim.M2 sim' = Sim.M2 sim -> Sim.R sim' = Sim.R sim ->
  Sim.epsilon_k sim' = c * Sim.epsilon_k sim ->
  Sim.ky sim' = k * Sim.ky sim ->
  PlotEnergy.closed_form_max_delta_xs sim = ret m ->
  PlotEnergy.closed_form_max_delta_xs sim' = ret (c / k * m).
Proof.
  intros HM Hky Hk EM ER Ee Ek Hm.
  rewrite closed_form_value in Hm by assumption. apply ret_inj in Hm.
  rewrite closed_form_value.
  - f_equal. subst m. rewrite EM, ER, Ee, Ek.
    pose proof (one_minus_square_pos _ HM) as Hs.
    field. repeat split; lra.
  - rewrite EM. exact HM.
  - rewrite Ek. apply Rmult_integral_contrapositive_currified; assumption.
Qed.

Lemma exit_time_closed_form_value (sim : Sim.t) (x1 : float) :
  Sim.longwavelength sim = true -> Sim.Nx sim = 0 ->
  Sim.M2 sim ^ 2 < 1 -> Sim.ky sim <> 0 -> Sim.M2 sim * Sim.a2 sim <> 0 ->
  let m := Sim.epsilon_k sim * Sim.R sim * Sim.M2 sim ^ 2
           / (Sim.ky sim * sqrt (1 - Sim.M2 sim ^ 2)) in
  let t := (x1 + m) / (Sim.M2 sim * Sim.a2 sim) in
  PlotEnergy.max_delta_xs sim = ret m
  /\ PlotEnergy.exit_time sim x1 = ret t
  /\ Sim.M2 sim * Sim.a2 sim * t = x1 + m.
Proof.
  intros Hlw HNx HM2 Hky Hspeed m t.
  assert (Hmax : PlotEnergy.max_delta_xs sim = ret m).
  { unfold PlotEnergy.max_delta_xs. rewrite Hlw.
    destruct (Req_dec_T (Sim.Nx sim) 0) as [_ | N]; [| contradiction].
    apply closed_form_value; assumption. }
  split; [exact Hmax | split].
  - unfold PlotEnergy.exit_time, PlotEnergy.exit_time_at.
    rewrite Hmax, bind_ret. apply div_nonzero. exact Hspeed.
  - apply speed_times_quotient. exact Hspeed.
Qed.

Lemma max_delta_xs_closed_form (sim : Sim.t) :
  Sim.longwavelength sim = true -> Sim.Nx sim = 0 ->
  PlotEnergy.max_delta_xs sim = PlotEnergy.closed_form_max_delta_xs sim.
Proof.
  intros Hlw HNx. unfold PlotEnergy.max_delta_xs. rewrite Hlw.
  destruct (Req_dec_T (Sim.Nx sim) 0) as [_ | N]; [reflexivity | contradiction].
Qed.

Lemma max_delta_xs_long_Nx_nonzero (sim : Sim.t) :
  Sim.longwavelength sim = true -> Sim.Nx sim <> 0 -> Sim.omega sim <> 0 ->
  PlotEnergy.max_delta_xs sim
  = ret (np_abs (np_real
           (Sim.delta_xs sim (Sim.phi sim / Sim.omega sim) None))).
Proof.
  intros Hlw HNx Hom. unfold PlotEnergy.max_delta_xs. rewrite Hlw.
  destruct (Req_dec_T (Sim.Nx sim) 0) as [E | _]; [contradiction |].
  rewrite div_nonzero by exact Hom. reflexivity.
Qed.

Lemma max_delta_xs_propagating (sim : Sim.t) :
  Sim.longwavelength sim = false ->
  PlotEnergy.max_delta_xs sim
  = ret (np_abs (np_real
           (Sim.delta_xs sim (PI / 2 * Sim.omega sim) None))).
Proof. intros Hlw. unfold PlotEnergy.max_delta_xs. rewrite Hlw. reflexivity. Qed.

Lemma exit_time_of_max (sim : Sim.t) (x1 m : float) :
  PlotEnergy.max_delta_xs sim = ret m ->
  Sim.M2 sim * Sim.a2 sim <> 0 ->
  PlotEnergy.exit_time sim x1 = ret ((x1 + m) / (Sim.M2 sim * Sim.a2 sim)).
Proof.
  intros Hm Hs. unfold PlotEnergy.exit_time, PlotEnergy.exit_time_at.
  rewrite Hm, bind_ret. apply div_nonzero. exact Hs.
Qed.

Lemma window_has_extent_energy (sim : Sim.t) :
  Sim.Lx sim <> 0 -> Sim.Ly sim <> 0 ->
  snd (fst (window_by sim PlotEnergy.Ny)) <> fst (fst (window_by sim PlotEnergy.Ny))
  /\ snd (snd (window_by sim PlotEnergy.Ny))
     <> fst (snd (window_by sim PlotEnergy.Ny)).
Proof.
  intros Hx Hy.
  destruct (window_by_extent sim PlotEnergy.Ny energy_Ny_nonzero) as [H1 H2].
  split; [apply H1; exact Hx | apply H2; exact Hy].
Qed.

Lemma window_has_extent_perturbations (sim : Sim.t) :
  Sim.Lx sim <> 0 -> Sim.Ly sim <> 0 ->
  snd (fst (window_by sim PlotPerturbations.Ny))
  <> fst (fst (window_by sim PlotPerturbations.Ny))
  /\ snd (snd (window_by sim PlotPerturbations.Ny))
     <> fst (snd (window_by sim PlotPerturbations.Ny)).
Proof.
  intros Hx Hy.
  destruct (window_by_extent sim PlotPerturbations.Ny perturbations_Ny_nonzero)
    as [H1 H2].
  split; [apply H1; exact Hx | apply H2; exact Hy].
Qed.

(** The loops of [plot_energy.py] are not empty: with the sample
    constructor all 14 * 3 iterations complete. *)
Lemma energy_run_sample_completes :
  snd (PlotEnergy.run sample_constructor) = None
  /\ length (fst (PlotEnergy.run sample_constructor)) = 42%nat.
Proof.
  unfold PlotEnergy.run.
  destruct (for_each_completes (PlotEnergy.iteration sample_constructor)
              (list_prod PlotEnergy.Nxs PlotEnergy.M1s)) as [H1 H2].
  - intros [Nx M1] Hin. apply in_prod_iff in Hin. destruct Hin as [_ HM].
    assert (HM1 : 1 < M1).
    { unfold PlotEnergy.M1s in HM. simpl in HM.
      destruct HM as [H | [H | [H | []]]]; subst M1; lra. }
    set (sim := sample_sim Nx PlotEnergy.Ny (3 / 5) true).
    assert (EC : sample_constructor Nx PlotEnergy.Ny M1 PlotEnergy.epsilon_k
                   PlotEnergy.gamma = ret sim).
    { unfold sample_constructor, SingleMode.SingleModeSolution.
      rewrite check_configuration_valid;
        [reflexivity | exact HM1 | exact energy_Ny_nonzero
         | unfold PlotEnergy.gamma; lra]. }
    assert (Hext := window_has_extent_energy sim).
    destruct Hext as [Hx Hy]; [simpl; lra | simpl; lra |].
    assert (Et : exists t,
               PlotEnergy.exit_time sim (2 * Sim.Lx sim / PlotEnergy.Ny) = ret t).
    { destruct (Req_dec_T Nx 0) as [E | N].
      - eexists.
        apply (exit_time_closed_form_value sim); try reflexivity.
        + exact E.
        + simpl. lra.
        + simpl. pose proof PI_RGT_0. unfold PlotEnergy.Ny. lra.
        + simpl. lra.
      - eexists. apply exit_time_of_max; [| simpl; lra].
        apply max_delta_xs_long_Nx_nonzero;
          [reflexivity | exact N | simpl; lra]. }
    destruct Et as [t Et].
    destruct (energy_iteration_value sample_constructor Nx M1 sim _ t EC
                (energy_mesh_table _ _ _ Hx Hy) Et) as [f [Hf _]].
    exists f. exact Hf.
  - split; [exact H1 | rewrite H2; reflexivity].
Qed.

Lemma energy_iteration_no_figure (C : Constructor) (Nx M1 : float)
    (sim : Sim.t) (s : Stop) :
  C Nx PlotEnergy.Ny M1 PlotEnergy.epsilon_k PlotEnergy.gamma = ret sim ->
  PlotEnergy.exit_time sim (2 * Sim.Lx sim / PlotEnergy.Ny) = inl s ->
  exists s', PlotEnergy.iteration C (Nx, M1) = inl s'.
Proof.
  intros EC Et.
  destruct (PlotEnergy.mesh (Sim.numpy sim Sim.aLx) (Sim.numpy sim Sim.aLy)
              (window_by sim PlotEnergy.Ny)) as [s' | xy] eqn:Em.
  - exists s'. unfold PlotEnergy.iteration.
    rewrite EC, bind_ret, energy_domain_by_Ny, bind_ret.
    cbn [fst snd PlotEnergy.window_numpy]. rewrite Em. reflexivity.
  - exists s. apply (energy_iteration_stops_at_time C Nx M1 sim xy s EC Em Et).
Qed.









(** C6 (as amended).  When [M2 > 1] the closed form has no value: the call
    [math.sqrt(1 - M2**2)] raises the math domain error, whatever the
    types of the attributes.  The error reaches the caller unchanged:
    [max_delta_xs] and the time computation raise it, the loop body raises
    it once the mesh is built, and in no case does the loop body produce a
    figure. *)
Theorem closed_form_raises_when_M2_gt_1 (sim : Sim.t)
    (HM2 : 1 < Sim.M2 sim) :
  PlotEnergy.closed_form_max_delta_xs sim = raise ValueError_math_domain
  /\ (forall v, PlotEnergy.closed_form_max_delta_xs sim <> ret v)
  /\ PlotEnergy.closed_form_max_delta_xs sim <> not_finite
  /\ (Sim.longwavelength sim = true -> Sim.Nx sim = 0 ->
      PlotEnergy.max_delta_xs sim = raise ValueError_math_domain
      /\ (forall x1,
            PlotEnergy.exit_time sim x1 = raise ValueError_math_domain)
      /\ (forall (C : Constructor) Nx M1,
            C Nx PlotEnergy.Ny M1 PlotEnergy.epsilon_k PlotEnergy.gamma
            = ret sim ->
            (exists s, PlotEnergy.iteration C (Nx, M1) = inl s)
            /\ (Sim.Lx sim <> 0 -> Sim.Ly sim <> 0 ->
                PlotEnergy.iteration C (Nx, M1)
                = raise ValueError_math_domain))).
Proof.
  assert (Hcf : PlotEnergy.closed_form_max_delta_xs sim
                = raise ValueError_math_domain).
  { unfold PlotEnergy.closed_form_max_delta_xs.
    rewrite math_sqrt_domain_error by nra. reflexivity. }
  split; [exact Hcf |].
  split; [intros v Hv; rewrite Hcf in Hv; discriminate |].
  split; [intros Hv; rewrite Hcf in Hv; discriminate |].
  intros Hlw HNx.
  assert (Hmax : PlotEnergy.max_delta_xs sim = raise ValueError_math_domain).
  { unfold PlotEnergy.max_delta_xs. rewrite Hlw.
    destruct (Req_dec_T (Sim.Nx sim) 0) as [_ | N]; [exact Hcf | contradiction]. }
  assert (Ht : forall x1,
             PlotEnergy.exit_time sim x1 = raise ValueError_math_domain).
  { intros x1. unfold PlotEnergy.exit_time, PlotEnergy.exit_time_at.
    rewrite Hmax. reflexivity. }
  split; [exact Hmax |]. split; [exact Ht |].
  intros C Nx M1 EC. split.
  - apply (energy_iteration_no_figure C Nx M1 sim _ EC (Ht _)).
  - intros HLx HLy.
    destruct (window_has_extent_energy sim HLx HLy) as [Hx Hy].
    apply (energy_iteration_stops_at_time C Nx M1 sim _ _ EC
             (energy_mesh_table _ _ _ Hx Hy) (Ht _)).
Qed.

Lemma closed_form_raises_when_M2_gt_1_witness :
  let sim := sample_sim 0 20 2 true in
  1 < Sim.M2 sim
  /\ PlotEnergy.closed_form_max_delta_xs sim = raise ValueError_math_domain
  /\ PlotEnergy.exit_time sim (1 / 10) = raise ValueError_math_domain.
Proof.
  intros sim.
  assert (H : 1 < Sim.M2 sim) by (simpl; lra).
  pose proof (closed_form_raises_when_M2_gt_1 sim H) as [H1 [_ [_ H2]]].
  split; [exact H |]. split; [exact H1 |].
  apply H2; reflexivity.
Defined.

(** C6, the claim as stated fails at [M2 = 1].  There the square root is
    defined, [math.sqrt(0) = 0], and no domain error is raised: with Python
    attributes the quotient raises the division error instead, and with
    numpy attributes nothing is raised at all, the closed form and the time
    are [inf] or [nan] and the script goes on. *)
Lemma closed_form_at_M2_one_no_domain_error :
  let sim_py := sample_object 0 20 1 true false (fun _ _ => (0, 0)) in
  let sim_np := sample_object 0 20 1 true true (fun _ _ => (0, 0)) in
  1 <= Sim.M2 sim_py /\ 1 <= Sim.M2 sim_np
  /\ math_sqrt (1 - Sim.M2 sim_py ^ 2) = ret 0
  /\ PlotEnergy.closed_form_max_delta_xs sim_py = raise ZeroDivisionError
  /\ PlotEnergy.closed_form_max_delta_xs sim_py <> raise ValueError_math_domain
  /\ PlotEnergy.closed_form_max_delta_xs sim_np = not_finite
  /\ PlotEnergy.exit_time sim_np (1 / 10) = not_finite
  /\ (forall e, PlotEnergy.closed_form_max_delta_xs sim_np <> raise e).
Proof.
  intros sim_py sim_np.
  assert (Hs : math_sqrt (1 - 1 ^ 2) = ret 0).
  { rewrite math_sqrt_defined by lra.
    replace (1 - 1 ^ 2) with 0 by ring. rewrite sqrt_0. reflexivity. }
  assert (Hpy : PlotEnergy.closed_form_max_delta_xs sim_py
                = raise ZeroDivisionError).
  { unfold PlotEnergy.closed_form_max_delta_xs.
    cbn [Sim.M2 sim_py sample_object]. rewrite Hs, bind_ret.
    apply (div_zero false). apply Rmult_0_r. }
  assert (Hnp : PlotEnergy.closed_form_max_delta_xs sim_np = not_finite).
  { unfold PlotEnergy.closed_form_max_delta_xs.
    cbn [Sim.M2 sim_np sample_object]. rewrite Hs, bind_ret.
    apply (div_zero true). apply Rmult_0_r. }
  split; [simpl; lra |]. split; [simpl; lra |].
  split; [exact Hs |]. split; [exact Hpy |].
  split; [rewrite Hpy; discriminate |].
  split; [exact Hnp |]. split.
  - unfold PlotEnergy.exit_time, PlotEnergy.exit_time_at.
    rewrite max_delta_xs_closed_form by reflexivity.
    rewrite Hnp. reflexivity.
  - intros e He. rewrite Hnp in He. discriminate.
Qed.

(** ** The shock curve of plot_perturbations.py *)

Lemma y_shock_length (w : Window) : length (PlotPerturbations.y_shock w) = 100%nat.
Proof. apply linspace_length. Qed.

Lemma x_shock_nth (sim : Sim.t) (w : Window) (t : float) (i : nat) :
  (i < 100)%nat ->
  nth i (PlotPerturbations.x_shock sim w t) 0
  = (2 / 3) * snd (fst w)
    + np_real (Sim.delta_xs sim t
                 (Some (nth i (PlotPerturbations.y_shock w) 0))).
Proof.
  intros Hi. unfold PlotPerturbations.x_shock.
  rewrite (nth_map_default _ _ 0) by (rewrite y_shock_length; exact Hi).
  unfold PlotPerturbations.xs. rewrite Rmult_1_r. reflexivity.
Qed.

Lemma time_value (sim : Sim.t) (x1 : float) :
  Sim.M2 sim * Sim.a2 sim <> 0 ->
  PlotPerturbations.time sim x1
  = ret ((2 / 3) * x1 / (Sim.M2 sim * Sim.a2 sim)).
Proof.
  intros Hs. unfold PlotPerturbations.time, PlotPerturbations.xs.
  apply div_nonzero. exact Hs.
Qed.

(** C9.  When [M2 * a2] is not zero, the time of [plot_perturbations.py]
    puts the unperturbed shock front [M2 * a2 * t] at two thirds of the
    right edge [x1] of the window, and the curve that is drawn has, at each
    of the 100 samples [y] of [linspace(y0, y1, 100)], the abscissa
    [(2/3) * x1 + Re (delta_xs(t, y))]; the samples lie between [y0] and
    [y1].  Every figure the loop body makes of the object carries this
    time and this curve, and it makes one as soon as the window has a
    width and a height, so that the mesh can be built. *)
Theorem shock_front_at_two_thirds (sim : Sim.t) (Nx : float)
    (Hspeed : Sim.M2 sim * Sim.a2 sim <> 0) :
  let w := window_by sim PlotPerturbations.Ny in
  let x1 := snd (fst w) in
  let y0 := fst (snd w) in
  let y1 := snd (snd w) in
  let t := (2 / 3) * x1 / (Sim.M2 sim * Sim.a2 sim) in
  PlotPerturbations.domain sim Nx = ret (ByNy, w)
  /\ PlotPerturbations.time sim x1 = ret t
  /\ Sim.M2 sim * Sim.a2 sim * t = (2 / 3) * x1
  /\ length (PlotPerturbations.y_shock w) = 100%nat
  /\ length (PlotPerturbations.x_shock sim w t) = 100%nat
  /\ (forall i, (i < 100)%nat ->
        nth i (PlotPerturbations.y_shock w) 0 = y0 + INR i * ((y1 - y0) / 99)
        /\ nth i (PlotPerturbations.x_shock sim w t) 0
           = (2 / 3) * x1
             + np_real (Sim.delta_xs sim t
                          (Some (nth i (PlotPerturbations.y_shock w) 0))))
  /\ (forall y, In y (PlotPerturbations.y_shock w) ->
                Rmin y0 y1 <= y <= Rmax y0 y1)
  /\ (forall (C : Constructor) M1,
        C Nx PlotPerturbations.Ny M1 PlotPerturbations.epsilon_k
          PlotPerturbations.gamma = ret sim ->
        (forall f,
           PlotPerturbations.iteration C (Nx, M1) = ret f ->
           PlotPerturbations.fig_t f = t
           /\ PlotPerturbations.fig_y_shock f = PlotPerturbations.y_shock w
           /\ PlotPerturbations.fig_x_shock f
              = PlotPerturbations.x_shock sim w t)
        /\ (Sim.Lx sim <> 0 -> Sim.Ly sim <> 0 ->
            exists f, PlotPerturbations.iteration C (Nx, M1) = ret f)).
Proof.
  intros w x1 y0 y1 t.
  assert (Ht : PlotPerturbations.time sim x1 = ret t)
    by (apply time_value; exact Hspeed).
  split; [apply perturbations_domain_by_Ny |].
  split; [exact Ht |].
  split; [unfold t; apply speed_times_quotient; exact Hspeed |].
  split; [apply y_shock_length |].
  split.
  { unfold PlotPerturbations.x_shock. rewrite length_map. apply y_shock_length. }
  split.
  { intros i Hi. split.
    - unfold PlotPerturbations.y_shock. rewrite linspace_nth by exact Hi.
      change (100 - 1)%nat with 99%nat. rewrite INR_99. reflexivity.
    - apply x_shock_nth. exact Hi. }
  split.
  { intros y Hy. unfold PlotPerturbations.y_shock in Hy.
    apply (linspace_between _ _ 100); [lia | exact Hy]. }
  intros C M1 EC. split.
  - intros f Hf.
    destruct (perturbations_iteration_inv C Nx M1 f Hf)
      as [sim' [xy [t' [EC' [_ [Ht' [_ [_ [Hft [Hfy [Hfx _]]]]]]]]]]].
    rewrite EC in EC'. apply ret_inj in EC'. subst sim'.
    change (2 * Sim.Lx sim / PlotPerturbations.Ny) with x1 in Ht'.
    rewrite Ht in Ht'. apply ret_inj in Ht'. subst t'.
    split; [exact Hft | split; [exact Hfy | exact Hfx]].
  - intros HLx HLy.
    destruct (window_has_extent_perturbations sim HLx HLy) as [Hx Hy].
    destruct (perturbations_iteration_value C Nx M1 sim _ t EC
                (perturbations_mesh_table _ _ _ Hx Hy) Ht) as [f [Hf _]].
    exists f. exact Hf.
Qed.

Lemma shock_front_at_two_thirds_witness :
  let sim := sample_object 4 20 (3 / 5) true false sample_displacement in
  let w := window_by sim PlotPerturbations.Ny in
  let t := (2 / 3) * snd (fst w) / (Sim.M2 sim * Sim.a2 sim) in
  Sim.M2 sim * Sim.a2 sim <> 0
  /\ PlotPerturbations.time sim (snd (fst w)) = ret t
  /\ nth 0 (PlotPerturbations.x_shock sim w t) 0
     = (2 / 3) * snd (fst w)
       + np_real (sample_displacement t
                    (Some (nth 0 (PlotPerturbations.y_shock w) 0))).
Proof.
  intros sim w t.
  assert (H : Sim.M2 sim * Sim.a2 sim <> 0) by (simpl; lra).
  pose proof (shock_front_at_two_thirds sim 4 H) as [_ [Ht [_ [_ [_ [Hc _]]]]]].
  split; [exact H |]. split; [exact Ht |].
  apply (Hc 0%nat). repeat constructor.
Defined.

(** ** The constructor *)

Lemma both_modes_zero_spec (Nx Ny : float) :
  SingleMode.both_modes_zero Nx Ny = true <-> Nx = 0 /\ Ny = 0.
Proof.
  unfold SingleMode.both_modes_zero.
  destruct (Req_dec_T Nx 0) as [Ex | Nx0]; [destruct (Req_dec_T Ny 0) as [Ey | Ny0] |].
  - split; [intros _; split; assumption | reflexivity].
  - split; [discriminate | intros [_ H]; contradiction].
  - split; [discriminate | intros [H _]; contradiction].
Qed.

Lemma check_configuration_spec (Nx Ny M1 gamma : float) :
  (SingleMode.check_configuration Nx Ny M1 gamma = raise ConfigurationError
   /\ (M1 <= 1 \/ (Nx = 0 /\ Ny = 0) \/ gamma <= 1))
  \/ (SingleMode.check_configuration Nx Ny M1 gamma = ret tt
      /\ ~ (M1 <= 1 \/ (Nx = 0 /\ Ny = 0) \/ gamma <= 1)).
Proof.
  unfold SingleMode.check_configuration.
  destruct (Rle_dec M1 1) as [HM | HM].
  { left. split; [reflexivity | left; exact HM]. }
  destruct (SingleMode.both_modes_zero Nx Ny) eqn:Eb.
  { left. split; [reflexivity |]. right. left.
    apply both_modes_zero_spec. exact Eb. }
  destruct (Rle_dec gamma 1) as [Hg | Hg].
  { left. split; [reflexivity | right; right; exact Hg]. }
  right. split; [reflexivity |].
  intros [H | [H | H]].
  - contradiction.
  - apply both_modes_zero_spec in H. rewrite H in Eb. discriminate.
  - contradiction.
Qed.

(** C5.  The constructor raises the configuration error exactly when
    [M1 <= 1], or [Nx] and [Ny] are both zero, or [gamma <= 1].  In that
    case the outcome is the same whatever the derivation of the constants
    would do, which is therefore not run; in every other case the
    constructor returns the derived object. *)
Theorem constructor_raises_iff_invalid
    (derive_constants : float -> float -> float -> float -> float -> Sim.t)
    (Nx Ny M1 epsilon_k gamma : float) :
  let invalid := M1 <= 1 \/ (Nx = 0 /\ Ny = 0) \/ gamma <= 1 in
  let result :=
    SingleMode.SingleModeSolution derive_constants Nx Ny M1 epsilon_k gamma in
  (result = raise ConfigurationError <-> invalid)
  /\ ((exists e, result = raise e) <-> invalid)
  /\ (result = ret (derive_constants Nx Ny M1 epsilon_k gamma) <-> ~ invalid)
  /\ (invalid ->
      forall derive_constants',
        SingleMode.SingleModeSolution derive_constants' Nx Ny M1 epsilon_k gamma
        = raise ConfigurationError).
Proof.
  intros invalid result. unfold result, SingleMode.SingleModeSolution.
  destruct (check_configuration_spec Nx Ny M1 gamma) as [[Hc Hi] | [Hc Hi]];
    fold invalid in Hi; rewrite Hc.
  - split; [| split; [| split]].
    + split; [intros _; exact Hi | intros _; reflexivity].
    + split; [intros _; exact Hi |].
      intros _. exists ConfigurationError. reflexivity.
    + split; [discriminate | intros Hn; contradiction].
    + intros _ d'. reflexivity.
  - split; [| split; [| split]].
    + split; [discriminate | intros H; contradiction].
    + split; [intros [e He]; discriminate | intros H; contradiction].
    + split; [intros _; exact Hi | intros _; reflexivity].
    + intros H. contradiction.
Qed.

(** ** The meshes of the two drivers *)

(** The mesh of plot_energy.py has 52 nodes along each axis, [dx] and [dy]
    apart, starting at the lower corner of the window: node 50 is the upper
    edge of the window and node 51 lies one step beyond it. *)
Theorem energy_mesh_nodes (kx ky : bool) (w : Window)
    (Hx : snd (fst w) <> fst (fst w)) (Hy : snd (snd w) <> fst (snd w)) :
  PlotEnergy.mesh kx ky w
  = ret (Np.table 52 52 (fun i _ => INR i * PlotEnergy.dx w + fst (fst w)),
         Np.table 52 52 (fun _ j => INR j * PlotEnergy.dy w + fst (snd w)))
  /\ INR 50 * PlotEnergy.dx w + fst (fst w) = snd (fst w)
  /\ INR 50 * PlotEnergy.dy w + fst (snd w) = snd (snd w).
Proof.
  split.
  - apply energy_mesh_table; assumption.
  - apply energy_node_50.
Qed.

Lemma energy_mesh_nodes_witness :
  let w : Window := ((0, 1 / 10), (0, 1 / 10)) in
  snd (fst w) <> fst (fst w) /\ snd (snd w) <> fst (snd w)
  /\ INR 50 * PlotEnergy.dx w + fst (fst w) = snd (fst w).
Proof.
  intros w.
  assert (Hx : snd (fst w) <> fst (fst w)) by (simpl; lra).
  assert (Hy : snd (snd w) <> fst (snd w)) by (simpl; lra).
  split; [exact Hx | split; [exact Hy |]].
  apply (energy_mesh_nodes false false w Hx Hy).
Defined.

Lemma energy_mesh_zero_width (kx ky : bool) (w : Window) :
  snd (fst w) = fst (fst w) ->
  PlotEnergy.mesh kx ky w
  = raise (if kx then ValueError_nan_to_integer else ZeroDivisionError).
Proof.
  intros E. unfold PlotEnergy.mesh, PlotEnergy.dx, Np.mgrid. rewrite E.
  rewrite mgrid_raw_size_zero_extent. destruct kx; reflexivity.
Qed.

Lemma energy_mesh_zero_height (kx ky : bool) (w : Window) :
  snd (fst w) <> fst (fst w) -> snd (snd w) = fst (snd w) ->
  PlotEnergy.mesh kx ky w
  = raise (if ky then ValueError_nan_to_integer else ZeroDivisionError).
Proof.
  intros N E. unfold PlotEnergy.mesh, PlotEnergy.dx, PlotEnergy.dy, Np.mgrid.
  rewrite (mgrid_raw_size_two_beyond _ _ _ 50) by (exact N || reflexivity).
  rewrite bind_ret, E. rewrite mgrid_raw_size_zero_extent.
  destruct ky; reflexivity.
Qed.

(** Over the reals, building the mesh of plot_energy.py fails exactly when
    the window has no width or no height.  The quotient of the size
    computation is then [0/0]: it raises the division error when the
    window edge is a Python number, and is [nan], which [math.ceil]
    refuses, when it is a numpy scalar; the width is looked at first.
    The infinite size and the negative size that [np.mgrid] can meet in
    general cannot occur. *)
Theorem energy_mesh_errors (kx ky : bool) (w : Window) :
  ((exists s, PlotEnergy.mesh kx ky w = inl s)
   <-> (snd (fst w) = fst (fst w) \/ snd (snd w) = fst (snd w)))
  /\ (forall s, PlotEnergy.mesh kx ky w = inl s ->
        (snd (fst w) = fst (fst w)
         /\ s = Raised (if kx then ValueError_nan_to_integer
                        else ZeroDivisionError))
        \/ (snd (fst w) <> fst (fst w) /\ snd (snd w) = fst (snd w)
            /\ s = Raised (if ky then ValueError_nan_to_integer
                           else ZeroDivisionError)))
  /\ PlotEnergy.mesh kx ky w <> raise OverflowError_inf_to_integer
  /\ PlotEnergy.mesh kx ky w <> raise ValueError_negative_dimensions
  /\ PlotEnergy.mesh kx ky w <> not_finite.
Proof.
  assert (Hcases :
    (snd (fst w) = fst (fst w)
     /\ PlotEnergy.mesh kx ky w
        = raise (if kx then ValueError_nan_to_integer else ZeroDivisionError))
    \/ (snd (fst w) <> fst (fst w) /\ snd (snd w) = fst (snd w)
        /\ PlotEnergy.mesh kx ky w
           = raise (if ky then ValueError_nan_to_integer else ZeroDivisionError))
    \/ (snd (fst w) <> fst (fst w) /\ snd (snd w) <> fst (snd w)
        /\ exists xy, PlotEnergy.mesh kx ky w = ret xy)).
  { destruct (Req_dec_T (snd (fst w)) (fst (fst w))) as [Ex | Nx].
    - left. split; [exact Ex | apply energy_mesh_zero_width; exact Ex].
    - destruct (Req_dec_T (snd (snd w)) (fst (snd w))) as [Ey | Ny].
      + right. left. split; [exact Nx | split; [exact Ey |]].
        apply energy_mesh_zero_height; assumption.
      + right. right. split; [exact Nx | split; [exact Ny |]].
        eexists. apply energy_mesh_table; assumption. }
  destruct Hcases as [[Ex H] | [[Nx [Ey H]] | [Nx [Ny [xy H]]]]]; rewrite H.
  - split; [split; [intros _; left; exact Ex | intros _; eexists; reflexivity] |].
    split.
    + intros s Hs. left. split; [exact Ex |]. injection Hs as Hs.
      symmetry. exact Hs.
    + destruct kx; repeat split; discriminate.
  - split; [split; [intros _; right; exact Ey | intros _; eexists; reflexivity] |].
    split.
    + intros s Hs. right. split; [exact Nx | split; [exact Ey |]].
      injection Hs as Hs. symmetry. exact Hs.
    + destruct ky; repeat split; discriminate.
  - split.
    + split; [intros [s Hs]; discriminate | intros [E | E]; contradiction].
    + split; [intros s Hs; discriminate |]. repeat split; discriminate.
Qed.

(** Whatever the number of nodes [np.mgrid] returned, the three arrays
    plot_energy.py draws are the tables of the kinetic energy, the total
    energy and [rho1 * Re (delta_rho_rho1)] at the mesh nodes
    [(x0 + i*dx, y0 + j*dy)], without the last row and the last column of
    nodes: for a mesh of [n+1] by [m+1] nodes, three [n] by [m] tables. *)
Theorem energy_zs_tables (sim : Sim.t) (t x0 y0 dx dy : float) (n m : nat) :
  let xn := fun i => INR i * dx + x0 in
  let yn := fun j => INR j * dy + y0 in
  PlotEnergy.zs sim t (Np.table (S n) (S m) (fun i _ => xn i))
                      (Np.table (S n) (S m) (fun _ j => yn j))
  = [Np.table n m (fun i j => Sim.delta_KE sim t (xn i) (yn j));
     Np.table n m (fun i j => Sim.delta_TE sim t (xn i) (yn j));
     Np.table n m
       (fun i j =>
          Sim.rho1 sim * np_real (Sim.delta_rho_rho1 sim t (xn i) (yn j)))].
Proof.
  intros xn yn. unfold PlotEnergy.zs. simpl map.
  rewrite !broadcast2_table, !trim_table. reflexivity.
Qed.

(** For a mesh of [n+1] by [m+1] nodes, the points plot_energy.py passes
    to [contourf] are the [n] by [m] tables of [Ny * x_i + dx/2] and
    [Ny * y_j + dy/2], the shape of the arrays drawn.  In a window of
    positive width each abscissa lies strictly inside the scaled mesh cell
    [Ny * x_i, Ny * x_(i+1)], a fortieth of the cell width from its left
    edge, and column 50 lies beyond the right axis limit [Ny * x1]. *)
Theorem energy_contour_points (Nx : float) (w : Window) (n m : nat)
    (Hx : fst (fst w) < snd (fst w)) :
  let xn := fun i => INR i * PlotEnergy.dx w + fst (fst w) in
  let yn := fun j => INR j * PlotEnergy.dy w + fst (snd w) in
  let X := fun i => PlotEnergy.Ny * xn i + PlotEnergy.dx w / 2 in
  PlotEnergy.contour_xy Nx w (Np.table (S n) (S m) (fun i _ => xn i))
                             (Np.table (S n) (S m) (fun _ j => yn j))
  = (Np.table n m (fun i _ => X i),
     Np.table n m (fun _ j => PlotEnergy.Ny * yn j + PlotEnergy.dy w / 2))
  /\ (forall i, PlotEnergy.Ny * xn i < X i < PlotEnergy.Ny * xn (S i))
  /\ (forall i,
        X i - PlotEnergy.Ny * xn i
        = (PlotEnergy.Ny * xn (S i) - PlotEnergy.Ny * xn i) / 40)
  /\ PlotEnergy.Ny * snd (fst w) < X 50%nat.
Proof.
  intros xn yn X.
  destruct (energy_node_50 w) as [H50 _].
  assert (Hdx : 0 < PlotEnergy.dx w) by (unfold PlotEnergy.dx; lra).
  assert (HS : forall i, xn (S i) = xn i + PlotEnergy.dx w).
  { intros i. unfold xn. rewrite S_INR. ring. }
  split; [| split; [| split]].
  - unfold PlotEnergy.contour_xy. rewrite energy_contour_by_Ny. simpl snd.
    rewrite !trim_table, !affine_table. reflexivity.
  - intros i. rewrite HS. unfold X, PlotEnergy.Ny. lra.
  - intros i. rewrite HS. unfold X, PlotEnergy.Ny. field.
  - unfold X. fold (xn 50%nat) in H50. rewrite H50. unfold PlotEnergy.Ny. lra.
Qed.

Lemma energy_contour_points_witness :
  let w : Window := ((0, 1 / 10), (0, 1 / 10)) in
  fst (fst w) < snd (fst w)
  /\ PlotEnergy.Ny * snd (fst w)
     < PlotEnergy.Ny * (INR 50 * PlotEnergy.dx w + fst (fst w))
       + PlotEnergy.dx w / 2.
Proof.
  intros w.
  assert (Hx : fst (fst w) < snd (fst w)) by (simpl; lra).
  split; [exact Hx |].
  apply (energy_contour_points 0 w 51 51 Hx).
Defined.

(** The mesh of plot_perturbations.py has 102 nodes along each axis, node
    100 on the upper edge of the window; the points passed to [contourf]
    are the 101 x 101 table of [Ny * x_i + dx/2] and [Ny * y_j + dy/2]. *)
Theorem perturbations_mesh_and_contour_points (Nx : float) (kx ky : bool)
    (w : Window)
    (Hx : snd (fst w) <> fst (fst w)) (Hy : snd (snd w) <> fst (snd w)) :
  let xn := fun i => INR i * PlotPerturbations.dx w + fst (fst w) in
  let yn := fun j => INR j * PlotPerturbations.dy w + fst (snd w) in
  exists x y,
    PlotPerturbations.mesh kx ky w = ret (x, y)
    /\ x = Np.table 102 102 (fun i _ => xn i)
    /\ y = Np.table 102 102 (fun _ j => yn j)
    /\ xn 100%nat = snd (fst w) /\ yn 100%nat = snd (snd w)
    /\ PlotPerturbations.contour_xy Nx w x y
       = (Np.table 101 101
            (fun i _ => PlotPerturbations.Ny * xn i + PlotPerturbations.dx w / 2),
          Np.table 101 101
            (fun _ j => PlotPerturbations.Ny * yn j + PlotPerturbations.dy w / 2)).
Proof.
  intros xn yn. eexists. eexists.
  split; [apply perturbations_mesh_table; assumption |].
  split; [reflexivity |]. split; [reflexivity |].
  assert (H100 : INR 100 = 100) by (rewrite INR_IZR_INZ; reflexivity).
  split; [| split].
  - unfold xn, PlotPerturbations.dx. rewrite H100. field.
  - unfold yn, PlotPerturbations.dy. rewrite H100. field.
  - unfold PlotPerturbations.contour_xy.
    rewrite perturbations_contour_by_Ny. simpl snd.
    rewrite !trim_table, !affine_table. reflexivity.
Qed.

Lemma perturbations_mesh_and_contour_points_witness :
  let w : Window := ((0, 1 / 10), (0, 1 / 10)) in
  snd (fst w) <> fst (fst w) /\ snd (snd w) <> fst (snd w)
  /\ exists x y, PlotPerturbations.mesh false false w = ret (x, y).
Proof.
  intros w.
  assert (Hx : snd (fst w) <> fst (fst w)) by (simpl; lra).
  assert (Hy : snd (snd w) <> fst (snd w)) by (simpl; lra).
  split; [exact Hx | split; [exact Hy |]].
  destruct (perturbations_mesh_and_contour_points 4 false false w Hx Hy)
    as [x [y [H _]]].
  exists x, y. exact H.
Defined.

(** ** The panels of plot_perturbations.py *)

Lemma seq_add_map (a s n : nat) :
  map (fun col => (a + col)%nat) (seq s n) = seq (a + s) n.
Proof.
  revert s. induction n as [| n IH]; intros s; simpl.
  - reflexivity.
  - f_equal. rewrite IH. f_equal. apply Nat.add_succ_r.
Qed.

Lemma index_row (n_rows n_cols row : nat) :
  map (fun col => PlotPerturbations.index n_rows row col) (seq 0 n_cols)
  = seq (row * n_rows) n_cols.
Proof.
  unfold PlotPerturbations.index. rewrite seq_add_map.
  rewrite Nat.add_0_r. reflexivity.
Qed.

Lemma square_rows (n k s : nat) :
  flat_map (fun row => seq (row * n) n) (seq s k) = seq (s * n) (k * n).
Proof.
  revert s. induction k as [| k IH]; intros s; simpl.
  - reflexivity.
  - rewrite IH. rewrite seq_app. f_equal. f_equal. simpl.
    apply Nat.add_comm.
Qed.

(** On a square grid of panels the two loops of plot_perturbations.py
    visit the indices [0, 1, ..., n*n - 1] in order: every field and
    title is used once, by the panel in row [index / n], column
    [index mod n]. *)
Theorem panel_indices_square (n : nat) :
  PlotPerturbations.panel_indices n n = seq 0 (n * n).
Proof.
  unfold PlotPerturbations.panel_indices.
  rewrite (flat_map_ext _ (fun row => seq (row * n) n)).
  - apply (square_rows n n 0).
  - intros row. apply index_row.
Qed.

Lemma panel_indices_two_rows (r c : nat) :
  exists rest,
    PlotPerturbations.panel_indices (S (S r)) c
    = seq 0 c ++ seq (S (S r)) c ++ rest.
Proof.
  unfold PlotPerturbations.panel_indices. simpl seq. simpl flat_map.
  rewrite !index_row. eexists. f_equal. f_equal.
  rewrite Nat.mul_1_l. reflexivity.
Qed.

(** The index [row*n_rows + col] is the row-major one only on a square
    grid.  With at least two rows and more columns than rows, the panels
    [(0, n_rows)] and [(1, 0)] get the same index; with fewer columns than
    rows the last panel gets an index beyond the [n_rows * n_cols] fields. *)
Theorem panel_indices_not_square (n_rows n_cols : nat) :
  (2 <= n_rows)%nat ->
  ((n_rows < n_cols)%nat ->
   PlotPerturbations.index n_rows 0 n_rows = PlotPerturbations.index n_rows 1 0
   /\ ~ NoDup (PlotPerturbations.panel_indices n_rows n_cols))
  /\ ((1 <= n_cols < n_rows)%nat ->
      (n_rows * n_cols
       <= PlotPerturbations.index n_rows (n_rows - 1) (n_cols - 1))%nat
      /\ In (PlotPerturbations.index n_rows (n_rows - 1) (n_cols - 1))
            (PlotPerturbations.panel_indices n_rows n_cols)).
Proof.
  intros Hr. split.
  - intros Hc. split.
    + unfold PlotPerturbations.index. lia.
    + destruct n_rows as [| [| r]]; [lia | lia |].
      destruct (panel_indices_two_rows r n_cols) as [rest E]. rewrite E.
      destruct n_cols as [| c]; [lia |].
      change (seq (S (S r)) (S c)) with (S (S r) :: seq (S (S (S r))) c).
      intros Hnd. apply NoDup_remove_2 in Hnd. apply Hnd.
      apply in_or_app. left. apply in_seq. lia.
  - intros [Hc1 Hc2]. split.
    + unfold PlotPerturbations.index.
      destruct n_rows as [| r]; [lia |]. destruct n_cols as [| c]; [lia |].
      simpl. rewrite !Nat.sub_0_r. nia.
    + unfold PlotPerturbations.panel_indices.
      apply in_flat_map. exists (n_rows - 1)%nat. split.
      * apply in_seq. lia.
      * apply in_map. apply in_seq. lia.
Qed.

Lemma panel_indices_not_square_witness :
  ((2 <= 2)%nat /\ (2 < 3)%nat
   /\ ~ NoDup (PlotPerturbations.panel_indices 2 3))
  /\ ((2 <= 3)%nat /\ (1 <= 2 < 3)%nat
      /\ In (PlotPerturbations.index 3 2 1)
            (PlotPerturbations.panel_indices 3 2)).
Proof.
  assert (H2 : (2 <= 2)%nat) by apply le_n.
  assert (H23 : (2 < 3)%nat) by apply le_n.
  assert (H3 : (2 <= 3)%nat) by (apply le_S; apply le_n).
  assert (H123 : (1 <= 2 < 3)%nat) by (split; [apply le_S; apply le_n | apply le_n]).
  split.
  - split; [exact H2 | split; [exact H23 |]].
    apply (panel_indices_not_square 2 3 H2). exact H23.
  - split; [exact H3 | split; [exact H123 |]].
    apply (panel_indices_not_square 3 2 H3). exact H123.
Defined.

(** ** When the time of plot_energy.py exists, and where it puts the front *)

Lemma closed_form_succeeds (sim : Sim.t) :
  (exists m, PlotEnergy.closed_form_max_delta_xs sim = ret m)
  <-> (Sim.M2 sim ^ 2 < 1 /\ Sim.ky sim <> 0).
Proof.
  split.
  - intros [m Hm]. unfold PlotEnergy.closed_form_max_delta_xs in Hm.
    unfold math_sqrt in Hm.
    destruct (Rlt_dec (1 - Sim.M2 sim ^ 2) 0) as [L | NL]; [discriminate |].
    rewrite bind_ret in Hm.
    assert (N : Sim.ky sim * sqrt (1 - Sim.M2 sim ^ 2) <> 0)
      by (apply (div_ret_nonzero _ _ _ _ Hm)).
    assert (Hky : Sim.ky sim <> 0).
    { intros E. apply N. rewrite E. apply Rmult_0_l. }
    split; [| exact Hky].
    destruct (Rle_lt_or_eq_dec 0 (1 - Sim.M2 sim ^ 2)) as [Hlt | Heq]; [lra | lra |].
    exfalso. apply N. rewrite <- Heq, sqrt_0. apply Rmult_0_r.
  - intros [HM Hky]. eexists. apply closed_form_value; assumption.
Qed.

Lemma max_delta_xs_numpy_abs (sim : Sim.t) :
  Sim.longwavelength sim = false \/ Sim.Nx sim <> 0 ->
  PlotEnergy.max_delta_xs_numpy sim = true.
Proof.
  intros H. unfold PlotEnergy.max_delta_xs_numpy.
  destruct (Sim.longwavelength sim); [| reflexivity].
  destruct (Req_dec_T (Sim.Nx sim) 0) as [E | _]; [| reflexivity].
  destruct H as [H | H]; [discriminate | contradiction].
Qed.

(** The time of plot_energy.py (lines 84-91) is a real number exactly when
    [M2 * a2] is not zero and the branch taken can be evaluated: always in
    the propagating regime, when [omega <> 0] in the long-wavelength regime
    with [Nx <> 0], and when [M2^2 < 1] and [ky <> 0] in the long-wavelength
    regime with [Nx == 0].  In the two branches that take [np.abs] a zero
    [M2 * a2] raises nothing: the numerator of line 91 is a numpy scalar
    and the time is [inf] or [nan]. *)
Theorem exit_time_succeeds_iff (sim : Sim.t) (x1 : float) :
  ((exists t, PlotEnergy.exit_time sim x1 = ret t)
   <-> (Sim.M2 sim * Sim.a2 sim <> 0
        /\ (Sim.longwavelength sim = false
            \/ (Sim.longwavelength sim = true /\ Sim.Nx sim <> 0
                /\ Sim.omega sim <> 0)
            \/ (Sim.longwavelength sim = true /\ Sim.Nx sim = 0
                /\ Sim.M2 sim ^ 2 < 1 /\ Sim.ky sim <> 0))))
  /\ (Sim.M2 sim * Sim.a2 sim = 0 ->
      (Sim.longwavelength sim = false
       \/ (Sim.longwavelength sim = true /\ Sim.Nx sim <> 0
           /\ Sim.omega sim <> 0)) ->
      PlotEnergy.exit_time sim x1 = not_finite).
Proof.
  split.
  - split.
    + intros [t Ht]. unfold PlotEnergy.exit_time, PlotEnergy.exit_time_at in Ht.
      destruct (PlotEnergy.max_delta_xs sim) as [s | m] eqn:Em; [discriminate |].
      rewrite bind_ret in Ht. split.
      * apply (div_ret_nonzero _ _ _ _ Ht).
      * unfold PlotEnergy.max_delta_xs in Em.
        destruct (Sim.longwavelength sim); [| left; reflexivity].
        right. destruct (Req_dec_T (Sim.Nx sim) 0) as [E | N].
        -- right. split; [reflexivity | split; [exact E |]].
           apply closed_form_succeeds. exists m. exact Em.
        -- left. split; [reflexivity | split; [exact N |]].
           destruct (div (Sim.numpy sim Sim.aphi || Sim.numpy sim Sim.aomega)
                       (Sim.phi sim) (Sim.omega sim)) as [s | t0] eqn:E0;
             [discriminate |].
           apply (div_ret_nonzero _ _ _ _ E0).
    + intros [Hs [H | [[Hlw [HNx Ho]] | [Hlw [HNx [HM Hky]]]]]]; eexists.
      * apply exit_time_of_max; [apply max_delta_xs_propagating; exact H | exact Hs].
      * apply exit_time_of_max;
          [apply max_delta_xs_long_Nx_nonzero; assumption | exact Hs].
      * apply exit_time_of_max; [| exact Hs].
        rewrite max_delta_xs_closed_form by assumption.
        apply closed_form_value; assumption.
  - intros Hs Hb.
    assert (Hk : PlotEnergy.max_delta_xs_numpy sim = true).
    { apply max_delta_xs_numpy_abs.
      destruct Hb as [H | [_ [H _]]]; [left; exact H | right; exact H]. }
    assert (Hm : exists m, PlotEnergy.max_delta_xs sim = ret m).
    { destruct Hb as [H | [Hlw [HNx Ho]]]; eexists.
      - apply max_delta_xs_propagating. exact H.
      - apply max_delta_xs_long_Nx_nonzero; assumption. }
    destruct Hm as [m Hm].
    unfold PlotEnergy.exit_time, PlotEnergy.exit_time_at.
    rewrite Hm, bind_ret, Hk, orb_true_r. cbn [orb].
    apply (div_zero true). exact Hs.
Qed.

(** In the two branches that take [np.abs] (long wavelength with
    [Nx <> 0], and propagating), whenever the time is a real number the
    unperturbed shock front [M2 * a2 * t] is at or beyond the right edge
    [x1], by exactly the maximum displacement the driver computed. *)
Theorem exit_time_front_beyond_edge (sim : Sim.t) (x1 t : float)
    (Hbranch : Sim.longwavelength sim = false \/ Sim.Nx sim <> 0)
    (Ht : PlotEnergy.exit_time sim x1 = ret t) :
  exists m,
    PlotEnergy.max_delta_xs sim = ret m
    /\ 0 <= m
    /\ Sim.M2 sim * Sim.a2 sim * t = x1 + m
    /\ x1 <= Sim.M2 sim * Sim.a2 sim * t.
Proof.
  unfold PlotEnergy.exit_time, PlotEnergy.exit_time_at in Ht.
  destruct (PlotEnergy.max_delta_xs sim) as [e | m] eqn:Em; [discriminate |].
  rewrite bind_ret in Ht. exists m.
  assert (Hm : 0 <= m).
  { unfold PlotEnergy.max_delta_xs in Em.
    destruct (Sim.longwavelength sim).
    - destruct (Req_dec_T (Sim.Nx sim) 0) as [E | N].
      + destruct Hbranch as [H | H]; [discriminate | contradiction].
      + destruct (div (Sim.numpy sim Sim.aphi || Sim.numpy sim Sim.aomega)
                    (Sim.phi sim) (Sim.omega sim)) as [e | t0];
          [discriminate |].
        rewrite bind_ret in Em. apply ret_inj in Em. subst m.
        apply Rabs_pos.
    - apply ret_inj in Em. subst m. apply Rabs_pos. }
  assert (Hs : Sim.M2 sim * Sim.a2 sim <> 0)
    by (apply (div_ret_nonzero _ _ _ _ Ht)).
  rewrite (div_nonzero _ _ _ Hs) in Ht. apply ret_inj in Ht. subst t.
  rewrite (speed_times_quotient _ _ Hs).
  split; [reflexivity | split; [exact Hm | split; [reflexivity | lra]]].
Qed.

Lemma exit_time_front_beyond_edge_witness :
  let sim := sample_object 4 20 (3 / 5) false false sample_displacement in
  let t := (1 / 10 + 1 / 40) / (3 / 5 * 1) in
  (Sim.longwavelength sim = false \/ Sim.Nx sim <> 0)
  /\ PlotEnergy.exit_time sim (1 / 10) = ret t
  /\ Sim.M2 sim * Sim.a2 sim * t = 1 / 10 + 1 / 40.
Proof.
  intros sim t.
  assert (Hb : Sim.longwavelength sim = false \/ Sim.Nx sim <> 0)
    by (left; reflexivity).
  assert (Hmax : PlotEnergy.max_delta_xs sim = ret (1 / 40)).
  { rewrite max_delta_xs_propagating by reflexivity.
    cbn [Sim.delta_xs sim sample_object sample_displacement np_real fst].
    unfold np_abs. rewrite Rabs_pos_eq by lra. reflexivity. }
  assert (Ht : PlotEnergy.exit_time sim (1 / 10) = ret t).
  { rewrite (exit_time_of_max sim (1 / 10) (1 / 40) Hmax) by (simpl; lra).
    reflexivity. }
  split; [exact Hb | split; [exact Ht |]].
  destruct (exit_time_front_beyond_edge sim (1 / 10) t Hb Ht)
    as [m [Hm [_ [H _]]]].
  rewrite Hmax in Hm. apply ret_inj in Hm. subst m. exact H.
Defined.

(** The closed form of line 86 is not wrapped in [np.abs]: when
    [epsilon_k * R] and [ky] have opposite signs it is negative, and the
    time of line 91 then leaves the unperturbed shock front short of the
    right edge [x1]. *)
Theorem closed_form_negative_stops_short (sim : Sim.t) (x1 : float)
    (Hlw : Sim.longwavelength sim = true)
    (HNx : Sim.Nx sim = 0)
    (HM2 : Sim.M2 sim ^ 2 < 1)
    (HM0 : Sim.M2 sim <> 0)
    (Hspeed : Sim.M2 sim * Sim.a2 sim <> 0)
    (Hsign : Sim.epsilon_k sim * Sim.R sim * Sim.ky sim < 0) :
  exists m t,
    PlotEnergy.max_delta_xs sim = ret m
    /\ m < 0
    /\ PlotEnergy.exit_time sim x1 = ret t
    /\ Sim.M2 sim * Sim.a2 sim * t < x1.
Proof.
  assert (Hky : Sim.ky sim <> 0).
  { intros E. rewrite E, Rmult_0_r in Hsign. lra. }
  destruct (exit_time_closed_form_value sim x1 Hlw HNx HM2 Hky Hspeed)
    as [Hmax [Htime Hpos]].
  eexists. eexists. split; [exact Hmax |].
  assert (Hneg : Sim.epsilon_k sim * Sim.R sim * Sim.M2 sim ^ 2
                 / (Sim.ky sim * sqrt (1 - Sim.M2 sim ^ 2)) < 0).
  { pose proof (one_minus_square_pos _ HM2) as Hs.
    set (s := sqrt (1 - Sim.M2 sim ^ 2)) in *.
    set (k := Sim.ky sim) in *. set (er := Sim.epsilon_k sim * Sim.R sim) in *.
    assert (Hm2 : 0 < Sim.M2 sim ^ 2) by (apply square_pos; exact HM0).
    set (q := Sim.M2 sim ^ 2) in *.
    assert (Hks : k * s <> 0)
      by (apply Rmult_integral_contrapositive_currified; [exact Hky | lra]).
    replace (er * q / (k * s)) with ((er * k) * (q * s) * / ((k * s) ^ 2))
      by (field; split; lra).
    assert (Hinv : 0 < / ((k * s) ^ 2))
      by (apply Rinv_0_lt_compat; apply square_pos; exact Hks).
    assert (Hqs : 0 < q * s) by (apply Rmult_lt_0_compat; assumption).
    assert (H1 : er * k * (q * s) < 0) by nra.
    nra. }
  split; [exact Hneg |]. split; [exact Htime |].
  rewrite Hpos. lra.
Qed.

Lemma closed_form_negative_stops_short_witness :
  let sim := sample_sim 0 (- 20) (3 / 5) true in
  Sim.longwavelength sim = true
  /\ Sim.Nx sim = 0
  /\ Sim.M2 sim ^ 2 < 1
  /\ Sim.M2 sim <> 0
  /\ Sim.M2 sim * Sim.a2 sim <> 0
  /\ Sim.epsilon_k sim * Sim.R sim * Sim.ky sim < 0
  /\ exists m t,
       PlotEnergy.max_delta_xs sim = ret m /\ m < 0
       /\ PlotEnergy.exit_time sim (1 / 10) = ret t
       /\ Sim.M2 sim * Sim.a2 sim * t < 1 / 10.
Proof.
  intros sim.
  assert (H1 : Sim.longwavelength sim = true) by reflexivity.
  assert (H2 : Sim.Nx sim = 0) by reflexivity.
  assert (H3 : Sim.M2 sim ^ 2 < 1) by (simpl; lra).
  assert (H4 : Sim.M2 sim <> 0) by (simpl; lra).
  assert (H5 : Sim.M2 sim * Sim.a2 sim <> 0) by (simpl; lra).
  assert (H6 : Sim.epsilon_k sim * Sim.R sim * Sim.ky sim < 0)
    by (simpl; pose proof PI_RGT_0; lra).
  repeat (split; [assumption |]).
  apply (closed_form_negative_stops_short sim (1 / 10) H1 H2 H3 H4 H5 H6).
Defined.

(** ** The loop body of plot_perturbations.py *)

Lemma zero_period_edge (l n : R) : l = 0 -> 2 * l / n = 0.
Proof. intros E. rewrite E. unfold Rdiv. ring. Qed.

Lemma perturbations_mesh_zero_width (kx ky : bool) (w : Window) :
  snd (fst w) = fst (fst w) ->
  PlotPerturbations.mesh kx ky w
  = raise (if kx then ValueError_nan_to_integer else ZeroDivisionError).
Proof.
  intros E. unfold PlotPerturbations.mesh, PlotPerturbations.dx, Np.mgrid.
  rewrite E. rewrite mgrid_raw_size_zero_extent. destruct kx; reflexivity.
Qed.

Lemma perturbations_mesh_zero_height (kx ky : bool) (w : Window) :
  snd (fst w) <> fst (fst w) -> snd (snd w) = fst (snd w) ->
  PlotPerturbations.mesh kx ky w
  = raise (if ky then ValueError_nan_to_integer else ZeroDivisionError).
Proof.
  intros N E.
  unfold PlotPerturbations.mesh, PlotPerturbations.dx, PlotPerturbations.dy,
    Np.mgrid.
  rewrite (mgrid_raw_size_two_beyond _ _ _ 100) by (exact N || reflexivity).
  rewrite bind_ret, E. rewrite mgrid_raw_size_zero_extent.
  destruct ky; reflexivity.
Qed.

Lemma perturbations_iteration_stops_at_mesh (C : Constructor) (Nx M1 : float)
    (sim : Sim.t) (s : Stop) :
  C Nx PlotPerturbations.Ny M1 PlotPerturbations.epsilon_k
    PlotPerturbations.gamma = ret sim ->
  PlotPerturbations.mesh (Sim.numpy sim Sim.aLx) (Sim.numpy sim Sim.aLy)
    (window_by sim PlotPerturbations.Ny) = inl s ->
  PlotPerturbations.iteration C (Nx, M1) = inl s.
Proof.
  intros EC Em. unfold PlotPerturbations.iteration.
  rewrite EC, bind_ret, perturbations_domain_by_Ny, bind_ret.
  cbn [fst snd]. rewrite Em. reflexivity.
Qed.

Lemma perturbations_iteration_stops_at_time (C : Constructor) (Nx M1 : float)
    (sim : Sim.t) (xy : Np.Array2 * Np.Array2) (s : Stop) :
  C Nx PlotPerturbations.Ny M1 PlotPerturbations.epsilon_k
    PlotPerturbations.gamma = ret sim ->
  PlotPerturbations.mesh (Sim.numpy sim Sim.aLx) (Sim.numpy sim Sim.aLy)
    (window_by sim PlotPerturbations.Ny) = ret xy ->
  PlotPerturbations.time sim (2 * Sim.Lx sim / PlotPerturbations.Ny) = inl s ->
  PlotPerturbations.iteration C (Nx, M1) = inl s.
Proof.
  intros EC Em Et. unfold PlotPerturbations.iteration.
  rewrite EC, bind_ret, perturbations_domain_by_Ny, bind_ret.
  cbn [fst snd]. rewrite Em, bind_ret.
  change (snd (fst (window_by sim PlotPerturbations.Ny)))
    with (2 * Sim.Lx sim / PlotPerturbations.Ny).
  rewrite Et. reflexivity.
Qed.

(** Over the reals, one pass of the loop body of plot_perturbations.py
    goes through its steps (object, window, mesh, time) with real values
    exactly when the constructor returns an object whose periods [Lx] and
    [Ly] and whose speed [M2 * a2] are not zero.  Otherwise it ends the way
    the first failing step does: as the constructor does; with the [0/0]
    of the mesh size when a period is zero (the division error for a
    Python number, the refusal of [nan] by [math.ceil] for a numpy
    scalar); with the quotient of line 87 when the speed is zero (the
    division error between Python numbers, [inf] or [nan] and no exception
    as soon as a numpy scalar is involved). *)
Theorem perturbations_iteration_outcome (C : Constructor) (Nx M1 : float) :
  let made := C Nx PlotPerturbations.Ny M1 PlotPerturbations.epsilon_k
                PlotPerturbations.gamma in
  let zero_over_zero := fun numpy : bool =>
    if numpy then ValueError_nan_to_integer else ZeroDivisionError in
  ((exists f, PlotPerturbations.iteration C (Nx, M1) = ret f)
   <-> (exists sim, made = ret sim /\ Sim.Lx sim <> 0 /\ Sim.Ly sim <> 0
                    /\ Sim.M2 sim * Sim.a2 sim <> 0))
  /\ (forall s, made = inl s -> PlotPerturbations.iteration C (Nx, M1) = inl s)
  /\ (forall sim, made = ret sim ->
        (Sim.Lx sim = 0 ->
         PlotPerturbations.iteration C (Nx, M1)
         = raise (zero_over_zero (Sim.numpy sim Sim.aLx)))
        /\ (Sim.Lx sim <> 0 -> Sim.Ly sim = 0 ->
            PlotPerturbations.iteration C (Nx, M1)
            = raise (zero_over_zero (Sim.numpy sim Sim.aLy)))
        /\ (Sim.Lx sim <> 0 -> Sim.Ly sim <> 0 ->
            Sim.M2 sim * Sim.a2 sim = 0 ->
            PlotPerturbations.iteration C (Nx, M1)
            = if Sim.numpy sim Sim.aLx || Sim.numpy sim Sim.aM2
                 || Sim.numpy sim Sim.aa2
              then not_finite else raise ZeroDivisionError)).
Proof.
  intros made zero_over_zero.
  assert (Hfail : forall sim, made = ret sim ->
        (Sim.Lx sim = 0 ->
         PlotPerturbations.iteration C (Nx, M1)
         = raise (zero_over_zero (Sim.numpy sim Sim.aLx)))
        /\ (Sim.Lx sim <> 0 -> Sim.Ly sim = 0 ->
            PlotPerturbations.iteration C (Nx, M1)
            = raise (zero_over_zero (Sim.numpy sim Sim.aLy)))
        /\ (Sim.Lx sim <> 0 -> Sim.Ly sim <> 0 ->
            Sim.M2 sim * Sim.a2 sim = 0 ->
            PlotPerturbations.iteration C (Nx, M1)
            = if Sim.numpy sim Sim.aLx || Sim.numpy sim Sim.aM2
                 || Sim.numpy sim Sim.aa2
              then not_finite else raise ZeroDivisionError)).
  { intros sim EC.
    destruct (window_by_extent sim PlotPerturbations.Ny perturbations_Ny_nonzero)
      as [Hwx Hwy].
    split; [| split].
    - intros E.
      apply (perturbations_iteration_stops_at_mesh C Nx M1 sim _ EC).
      apply perturbations_mesh_zero_width.
      unfold window_by. cbn [fst snd]. apply zero_period_edge. exact E.
    - intros N E.
      apply (perturbations_iteration_stops_at_mesh C Nx M1 sim _ EC).
      apply perturbations_mesh_zero_height.
      + apply Hwx. exact N.
      + unfold window_by. cbn [fst snd]. apply zero_period_edge. exact E.
    - intros Nx0 Ny0 Es.
      assert (Hx := proj2 Hwx Nx0). assert (Hy := proj2 Hwy Ny0).
      assert (Et : PlotPerturbations.time sim
                     (2 * Sim.Lx sim / PlotPerturbations.Ny)
                   = if Sim.numpy sim Sim.aLx || Sim.numpy sim Sim.aM2
                        || Sim.numpy sim Sim.aa2
                     then not_finite else raise ZeroDivisionError).
      { unfold PlotPerturbations.time. apply div_zero. exact Es. }
      destruct (Sim.numpy sim Sim.aLx || Sim.numpy sim Sim.aM2
                || Sim.numpy sim Sim.aa2);
        apply (perturbations_iteration_stops_at_time C Nx M1 sim _ _ EC
                 (perturbations_mesh_table _ _ _ Hx Hy) Et). }
  split; [| split; [| exact Hfail]].
  - split.
    + intros [f Hf].
      destruct (perturbations_iteration_inv C Nx M1 f Hf)
        as [sim [xy [t [EC [Em [Et _]]]]]].
      exists sim. split; [exact EC |].
      destruct (Hfail sim EC) as [H1 [H2 H3]].
      destruct (Req_dec_T (Sim.Lx sim) 0) as [E | NLx].
      { rewrite (H1 E) in Hf. discriminate. }
      destruct (Req_dec_T (Sim.Ly sim) 0) as [E | NLy].
      { rewrite (H2 NLx E) in Hf. discriminate. }
      destruct (Req_dec_T (Sim.M2 sim * Sim.a2 sim) 0) as [E | Ns].
      { rewrite (H3 NLx NLy E) in Hf.
        destruct (Sim.numpy sim Sim.aLx || Sim.numpy sim Sim.aM2
                  || Sim.numpy sim Sim.aa2); discriminate. }
      split; [exact NLx | split; [exact NLy | exact Ns]].
    + intros [sim [EC [NLx [NLy Ns]]]].
      destruct (window_has_extent_perturbations sim NLx NLy) as [Hx Hy].
      destruct (perturbations_iteration_value C Nx M1 sim _ _ EC
                  (perturbations_mesh_table _ _ _ Hx Hy)
                  (time_value sim _ Ns)) as [f [Hf _]].
      exists f. exact Hf.
  - intros s Es. unfold PlotPerturbations.iteration. fold made.
    rewrite Es. reflexivity.
Qed.

Lemma perturbations_sample_iteration :
  exists f,
    PlotPerturbations.iteration sample_constructor (4, 175 / 100) = ret f.
Proof.
  set (sim := sample_sim 4 PlotPerturbations.Ny (3 / 5) true).
  assert (EC : sample_constructor 4 PlotPerturbations.Ny (175 / 100)
                 PlotPerturbations.epsilon_k PlotPerturbations.gamma = ret sim).
  { unfold sample_constructor, SingleMode.SingleModeSolution.
    rewrite check_configuration_valid;
      [reflexivity | lra | exact perturbations_Ny_nonzero
       | unfold PlotPerturbations.gamma; lra]. }
  destruct (window_has_extent_perturbations sim) as [Hx Hy];
    [simpl; lra | simpl; lra |].
  destruct (perturbations_iteration_value sample_constructor 4 (175 / 100)
              sim _ _ EC (perturbations_mesh_table _ _ _ Hx Hy)
              (time_value sim _ ltac:(simpl; lra))) as [f [Hf _]].
  exists f. exact Hf.
Qed.

(** The shock curve of a figure of plot_perturbations.py runs over the
    whole height of the axes: it has 100 points, the first at [y0 = 0] and
    the last at [y1], and once multiplied by [Ny] for plotting these are
    the lower and the upper limit of the y axis. *)
Theorem shock_curve_spans_axis (C : Constructor) (Nx M1 : float)
    (f : PlotPerturbations.Figure)
    (HC : stores_Ny C)
    (Hf : PlotPerturbations.iteration C (Nx, M1) = ret f) :
  let ys := PlotPerturbations.fig_y_shock f in
  length ys = 100%nat
  /\ length (PlotPerturbations.fig_x_shock f) = 100%nat
  /\ nth 0 ys 0 = 0
  /\ nth 99 ys 0 = 2 * Sim.Ly (PlotPerturbations.fig_sim f) / PlotPerturbations.Ny
  /\ PlotPerturbations.fig_shock_scale f * nth 0 ys 0
     = fst (PlotPerturbations.fig_ylim f)
  /\ PlotPerturbations.fig_shock_scale f * nth 99 ys 0
     = snd (PlotPerturbations.fig_ylim f).
Proof.
  intros ys.
  destruct (perturbations_iteration_by_Ny C (Nx, M1) f HC Hf)
    as [_ [_ [_ [_ [_ [Hsc [_ [_ [Hyl _]]]]]]]]].
  destruct (perturbations_iteration_inv C Nx M1 f Hf)
    as [sim [xy [t [_ [_ [_ [Hs [_ [_ [Hy [Hx _]]]]]]]]]]].
  unfold ys. rewrite Hsc, Hyl, Hx, Hy, Hs.
  assert (H0 : nth 0 (PlotPerturbations.y_shock
                         (window_by sim PlotPerturbations.Ny)) 0 = 0).
  { unfold PlotPerturbations.y_shock. rewrite linspace_nth by lia.
    simpl. lra. }
  assert (H99 : nth 99 (PlotPerturbations.y_shock
                          (window_by sim PlotPerturbations.Ny)) 0
                = 2 * Sim.Ly sim / PlotPerturbations.Ny).
  { unfold PlotPerturbations.y_shock. rewrite linspace_nth by lia.
    change (100 - 1)%nat with 99%nat. rewrite INR_99.
    unfold window_by. cbn [fst snd].
    generalize (2 * Sim.Ly sim / PlotPerturbations.Ny). intros u. lra. }
  split; [apply y_shock_length |].
  split; [unfold PlotPerturbations.x_shock; rewrite length_map;
          apply y_shock_length |].
  split; [exact H0 | split; [exact H99 |]].
  rewrite H0, H99. unfold window_by. cbn [fst snd]. split; reflexivity.
Qed.

Lemma shock_curve_spans_axis_witness :
  stores_Ny sample_constructor
  /\ exists f,
       PlotPerturbations.iteration sample_constructor (4, 175 / 100) = ret f
       /\ length (PlotPerturbations.fig_y_shock f) = 100%nat
       /\ nth 0 (PlotPerturbations.fig_y_shock f) 0 = 0.
Proof.
  split; [exact sample_constructor_stores_Ny |].
  destruct perturbations_sample_iteration as [f Hf].
  exists f. split; [exact Hf |].
  pose proof (shock_curve_spans_axis sample_constructor 4 (175 / 100) f
                sample_constructor_stores_Ny Hf) as H.
  split; apply H.
Defined.

(** The shock curve of plot_perturbations.py stays inside the window, in
    its right two thirds, at every sample where the real part of the
    displacement is at most a third of the window width in magnitude. *)
Theorem shock_curve_inside_window (sim : Sim.t) (w : Window) (t : float)
    (Hbound : forall y, In y (PlotPerturbations.y_shock w) ->
                Rabs (np_real (Sim.delta_xs sim t (Some y)))
                <= snd (fst w) / 3) :
  forall x, In x (PlotPerturbations.x_shock sim w t) ->
            snd (fst w) / 3 <= x <= snd (fst w).
Proof.
  intros x Hx. unfold PlotPerturbations.x_shock in Hx.
  apply in_map_iff in Hx. destruct Hx as [y [Hx Hy]]. subst x.
  specialize (Hbound y Hy). unfold PlotPerturbations.xs.
  set (d := np_real (Sim.delta_xs sim t (Some y))) in *.
  pose proof (Rle_abs d) as H1.
  pose proof (Rle_abs (- d)) as H2. rewrite Rabs_Ropp in H2.
  set (x1 := snd (fst w)) in *.
  split; lra.
Qed.

Lemma shock_curve_inside_window_witness :
  let sim := sample_object 4 20 (3 / 5) true false sample_displacement in
  let w := window_by sim PlotPerturbations.Ny in
  (forall y, In y (PlotPerturbations.y_shock w) ->
     Rabs (np_real (Sim.delta_xs sim 1 (Some y))) <= snd (fst w) / 3)
  /\ forall x, In x (PlotPerturbations.x_shock sim w 1) ->
               snd (fst w) / 3 <= x <= snd (fst w).
Proof.
  intros sim w.
  assert (H : forall y, In y (PlotPerturbations.y_shock w) ->
     Rabs (np_real (Sim.delta_xs sim 1 (Some y))) <= snd (fst w) / 3).
  { intros y Hy.
    apply (linspace_between _ _ 100) in Hy; [| lia].
    unfold w, window_by in Hy. cbn [fst snd Sim.Ly sim sample_object] in Hy.
    unfold PlotPerturbations.Ny in Hy.
    rewrite Rmin_left in Hy by lra. rewrite Rmax_right in Hy by lra.
    cbn [Sim.delta_xs sim sample_object sample_displacement np_real fst].
    unfold w, window_by. cbn [fst snd Sim.Lx sim sample_object].
    unfold PlotPerturbations.Ny.
    rewrite Rabs_pos_eq by lra. lra. }
  split; [exact H |].
  apply (shock_curve_inside_window sim w 1 H).
Defined.
